(** * gensnippets: extraction of GoDoc examples into region-tagged snippets

    A shallow embedding of the package [gensnippets] of
    cloud.google.com/go (functions [Generate], [processExamples],
    [writeExamples], [header], the table [skip]) and of the parts of the Go
    standard library it calls ([strings], [path/filepath], [os]), followed
    by the properties of the generator.

    Go strings are byte strings: they are modelled by [string], whose
    characters are 8-bit [ascii] values, and [len] is [String.length]. *)

From Stdlib Require Import String Ascii List ZArith Lia Bool DecimalString.
From stdpp Require Import base option list gmap strings sets.

Local Open Scope string_scope.
Local Open Scope stdpp_scope.
Local Open Scope list_scope.

(* ===================================================================== *)
(** * Package [strings] *)
(* ===================================================================== *)

Module strings.

(** [s[n:]] for [n <= len(s)]. *)
Fixpoint slice_from (n : nat) (s : string) : string :=
  match n, s with
  | O, _ => s
  | S n', String _ s' => slice_from n' s'
  | S _, EmptyString => EmptyString
  end.

(** [s[:n]] for [n <= len(s)]. *)
Definition slice_to (n : nat) (s : string) : string := substring 0 n s.

(** [func HasPrefix(s, prefix string) bool]:
    [len(s) >= len(prefix) && s[:len(prefix)] == prefix]. *)
Definition HasPrefix (s pre : string) : bool :=
  (String.length pre <=? String.length s)%nat
  && String.eqb (slice_to (String.length pre) s) pre.

(** [func HasSuffix(s, suffix string) bool]:
    [len(s) >= len(suffix) && s[len(s)-len(suffix):] == suffix]. *)
Definition HasSuffix (s suf : string) : bool :=
  (String.length suf <=? String.length s)%nat
  && String.eqb (slice_from (String.length s - String.length suf) s) suf.

(** [func TrimPrefix(s, prefix string) string]. *)
Definition TrimPrefix (s pre : string) : string :=
  if HasPrefix s pre then slice_from (String.length pre) s else s.

(** [func Split(s, sep string) []string] for a separator of one byte, the
    only way the generator calls it ([sep = "\n"]): the pieces of [s]
    between the occurrences of [sep]; [n] occurrences give [n+1] pieces,
    and [Split("", sep)] is the one-element slice holding [""]. *)
Fixpoint Split (s : string) (sep : ascii) : list string :=
  match s with
  | EmptyString => [EmptyString]
  | String c s' =>
      if Ascii.eqb c sep then EmptyString :: Split s' sep
      else match Split s' sep with
           | [] => [String c EmptyString]
           | piece :: pieces => String c piece :: pieces
           end
  end.

(** [func ReplaceAll(s, old, new string) string] for [old] of one byte
    (the generator calls it with [old = "/"]). *)
Fixpoint ReplaceAll (s : string) (old : ascii) (new : string) : string :=
  match s with
  | EmptyString => EmptyString
  | String c s' =>
      if Ascii.eqb c old then new +:+ ReplaceAll s' old new
      else String c (ReplaceAll s' old new)
  end.

(** [func Join(elems []string, sep string) string]. *)
Definition Join (elems : list string) (sep : string) : string :=
  String.concat sep elems.

(** The [strings.Builder] loop of the generator writes each piece in
    turn: the concatenation of a list of strings. *)
Fixpoint concat_all (pieces : list string) : string :=
  match pieces with
  | [] => EmptyString
  | p :: ps => p +:+ concat_all ps
  end.

(** Index of the last occurrence of the byte [c] in [s], if any
    ([strings.LastIndexByte], with [None] for [-1]). *)
Fixpoint LastIndexByte (s : string) (c : ascii) : option nat :=
  match s with
  | EmptyString => None
  | String a s' =>
      match LastIndexByte s' c with
      | Some i => Some (S i)
      | None => if Ascii.eqb a c then Some O else None
      end
  end.

End strings.

(** The bytes used by the generator. *)
Definition nl : ascii := "010"%char.
Definition tab : ascii := "009"%char.
Definition slash : ascii := "/"%char.
Definition NL : string := String nl EmptyString.
Definition TAB : string := String tab EmptyString.

(** A slice expression [l[lo:hi]]; Go panics unless [lo <= hi <= len(l)]. *)
Definition slice {A} (lo hi : nat) (l : list A) : list A :=
  drop lo (take hi l).

Definition slice_in_range {A} (lo hi : nat) (l : list A) : Prop :=
  (lo <= hi)%nat /\ (hi <= length l)%nat.

(* ===================================================================== *)
(** * Package [path/filepath] (Unix) *)
(* ===================================================================== *)

Module filepath.

(** One step of [Clean] on the path element [c], with the elements kept
    so far in [out] (most recent last): empty and [.] elements vanish,
    [..] removes the last real element if there is one, is dropped at
    the root, and is kept otherwise. *)
Definition clean_step (rooted : bool) (out : list string) (c : string)
  : list string :=
  if String.eqb c "" then out
  else if String.eqb c "." then out
  else if String.eqb c ".." then
    match last out with
    | Some top =>
        if String.eqb top ".." then out ++ [".."] else removelast out
    | None => if rooted then out else out ++ [".."]
    end
  else out ++ [c].

(** [func Clean(path string) string]. *)
Definition Clean (path : string) : string :=
  let rooted := strings.HasPrefix path "/" in
  let out := fold_left (clean_step rooted) (strings.Split path slash) [] in
  let body := strings.Join out "/" in
  if rooted then "/" +:+ body
  else if String.eqb body "" then "." else body.

(** [func Join(elem ...string) string]: the elements from the first
    non-empty one on, joined by the separator and cleaned; the empty
    string when there is none. *)
Fixpoint Join (elem : list string) : string :=
  match elem with
  | [] => ""
  | e :: rest =>
      if String.eqb e "" then Join rest
      else Clean (strings.Join elem "/")
  end.

(** [func Dir(path string) string]: [Clean] of the path up to and
    including its last separator. *)
Definition Dir (path : string) : string :=
  match strings.LastIndexByte path slash with
  | Some i => Clean (strings.slice_to (S i) path)
  | None => Clean ""
  end.

End filepath.

(* ===================================================================== *)
(** * Errors, the world, and the monad of effects *)
(* ===================================================================== *)

(** A Go [error], identified with its message ([err.Error()]). *)
Inductive error := Err (msg : string).

Definition Error (e : error) : string := match e with Err msg => msg end.

(** [fmt.Errorf(prefix + "%v", arg)]. *)
Definition Errorf (pre arg : string) : error := Err (pre +:+ arg).

(** What the generator sends to the standard logger. *)
Inductive LogEntry :=
| LogProcessing (n : nat) (dirs : list string)
(* "Processing examples in %v directories: %q\n" *)
| LogBestMatch (importPath bestMatch : string)
(* "The best match for %q is %q" *)
| LogFatal (errs : list error).
(* log.Fatal(errs) *)

(** The part of the machine the generator acts on: the regular files it
    writes (by path, with their content), the directories it makes, the
    log, and the number of calls made so far to the operating system and
    the clock. *)
Record World := mkWorld {
  files : gmap string string;
  dirs : gset string;
  logged : list LogEntry;
  tick : nat
}.

Inductive result (A : Type) :=
| Ok (a : A)
| Fail (e : error).
Arguments Ok {A} a.
Arguments Fail {A} e.

(** Computations that change the world and may fail; what was done before
    a failure stays done. *)
Definition M (A : Type) : Type := World -> World * result A.

Definition ret {A} (a : A) : M A := fun w => (w, Ok a).
Definition fail {A} (e : error) : M A := fun w => (w, Fail e).
Definition bind {A B} (m : M A) (k : A -> M B) : M B :=
  fun w => match m w with
           | (w', Ok a) => k a w'
           | (w', Fail e) => (w', Fail e)
           end.

Notation "'let*' x ':=' m 'in' k" := (bind m (fun x => k))
  (at level 10, x name, m at level 100, k at level 200).
Notation "'let*' '_' ':=' m 'in' k" := (bind m (fun _ => k))
  (at level 10, m at level 100, k at level 200).

(** [for _, x := range l { if err := f(x); err != nil { return err } }]. *)
Fixpoint forM_ {A} (f : A -> M unit) (l : list A) : M unit :=
  match l with
  | [] => ret tt
  | x :: xs => let* _ := f x in forM_ f xs
  end.

Definition log_Printf (e : LogEntry) : M unit :=
  fun w => (mkWorld (files w) (dirs w) (logged w ++ [e]) (tick w), Ok tt).

(* ===================================================================== *)
(** * What the generator takes from outside *)
(* ===================================================================== *)

(** The syntax trees of [go/ast] and [go/token], opaque to the generator. *)
Class AstTypes := {
  token_FileSet : Type;
  ast_Node : Type;
  ast_CommentGroup : Type;
  ast_File : Type
}.

(** The argument of [format.Node]: a [*printer.CommentedNode] or an
    [*ast.File]. *)
Inductive PrinterNode `{AstTypes} :=
| CommentedNode (Node : ast_Node) (Comments : list ast_CommentGroup)
| FileNode (f : ast_File).

(** The run-time environment of [processExamples] and [writeExamples]:
    - [format_Node]: [format.Node], as the source it prints or an error;
    - [year_at n]: the year [time.Now().Year()] gives when it is the
      [n]-th call to the outside;
    - [os_fails n]: whether that call, when made to the operating system,
      returns an error;
    - [os_progress n]: how far that call got when it fails: the number of
      directories [os.MkdirAll] had made, or of bytes a write had written,
      before the error;
    - [range_order n m]: the order in which a [range] over the map [m]
      yields its keys then; Go leaves it unspecified, it is some
      enumeration of the keys. *)
Class Runtime `{AstTypes} := {
  format_Node : token_FileSet -> PrinterNode -> result string;
  year_at : nat -> Z;
  os_fails : nat -> bool;
  os_progress : nat -> nat;
  range_order : nat -> gmap string string -> list string;
  range_order_perm : forall n m, range_order n m ≡ₚ (map_to_list m).*1
}.

(* ===================================================================== *)
(** * Package [doc]: the documentation tree *)
(* ===================================================================== *)

Module Example.
Record t `{AstTypes} := mk {
  Name : string;
  Suffix : string;
  Code : ast_Node;
  Comments : list ast_CommentGroup;
  Play : option ast_File
}.
Arguments mk {_}.
End Example.

Module Func.
Record t `{AstTypes} := mk {
  Name : string;
  Examples : list Example.t
}.
Arguments mk {_}.
End Func.

Module Type_.
Record t `{AstTypes} := mk {
  Name : string;
  Examples : list Example.t;
  Funcs : list Func.t;
  Methods : list Func.t
}.
Arguments mk {_}.
End Type_.

Module Package.
Record t `{AstTypes} := mk {
  ImportPath : string;
  Funcs : list Func.t;
  Types : list Type_.t
}.
Arguments mk {_}.
End Package.

(* ===================================================================== *)
(** * Packages [os], [time] and [fmt] *)
(* ===================================================================== *)

Section OperatingSystem.
Context `{Runtime}.

Definition with_tick (w : World) : World :=
  mkWorld (files w) (dirs w) (logged w) (S (tick w)).

(** A call to the operating system: it has its effect, or it fails when
    the environment says so; [partial k] is what a failed call that got as
    far as [k] leaves behind. *)
Definition syscall {A} (op path : string) (effect : World -> World * A)
    (partial : nat -> World -> World) : M A :=
  fun w =>
    if os_fails (tick w)
    then (partial (os_progress (tick w)) (with_tick w),
          Fail (Err (op +:+ " " +:+ path +:+ ": failed")))
    else let (w', a) := effect (with_tick w) in (w', Ok a).

(** A failed call that leaves nothing behind. *)
Definition nothing_done (k : nat) (w : World) : World := w.

Definition add_dirs (ds : list string) (w : World) : World :=
  mkWorld (files w) (dirs w ∪ list_to_set ds) (logged w) (tick w).

Definition append_to (f s : string) (w : World) : World :=
  mkWorld (<[f := default "" (files w !! f) +:+ s]> (files w))
          (dirs w) (logged w) (tick w).

(** The directory [path] and its parents, by their cleaned names, from
    the top down. *)
Definition parents (path : string) : list string :=
  let comps := strings.Split (filepath.Clean path) slash in
  filter (fun p => p <> "")
         (map (fun k => strings.Join (take k comps) "/")
              (seq 1 (length comps))).

(** [os.MkdirAll(path, 0755)]: it makes the missing directories from the
    top down, so that a call that fails may have made some of the parents
    of [path], and has not made [path] itself. *)
Definition os_MkdirAll (path : string) : M unit :=
  syscall "mkdir" path
    (fun w => (add_dirs (parents path) w, tt))
    (fun k => add_dirs (take k (removelast (parents path)))).

(** An open file [*os.File], known by the path it was opened at. *)
Definition File := string.

(** [os.OpenFile(name, os.O_WRONLY|os.O_CREATE|os.O_TRUNC, 0644)]: the
    file exists afterwards and is empty. *)
Definition os_OpenFile (name : string) : M File :=
  syscall "open" name
    (fun w =>
       (mkWorld (<[name := ""]> (files w)) (dirs w) (logged w) (tick w),
        name))
    nothing_done.

(** [f.WriteString(s)] and [fmt.Fprintf(f, ...)] once formatted: the
    bytes are added at the end of the file, where a handle opened with
    [O_TRUNC] and written in sequence stands. A write that fails has
    written fewer bytes than it was given: some first bytes of [s]. *)
Definition WriteString (f : File) (s : string) : M unit :=
  syscall "write" f
    (fun w => (append_to f s w, tt))
    (fun k =>
       append_to f (strings.slice_to (Nat.min k (String.length s - 1)) s)).

(** [time.Now().Year()]. *)
Definition time_Now_Year : M Z :=
  fun w => (with_tick w, Ok (year_at (tick w))).

(** [format.Node] into a fresh buffer, then [buf.String()]. *)
Definition format_to_string (fset : token_FileSet) (node : PrinterNode)
  : M string :=
  fun w => (w, format_Node fset node).

(** The iteration order of a [range] over a map. *)
Definition range_keys (m : gmap string string) : M (list string) :=
  fun w => (w, Ok (range_order (tick w) m)).

End OperatingSystem.

(** [%v] of an [int]. *)
Definition Sprint_int (n : Z) : string := NilZero.string_of_int (Z.to_int n).

(** The double quote. *)
Definition dq : string := String "034"%char EmptyString.

(* ===================================================================== *)
(** * Package [gensnippets] *)
(* ===================================================================== *)

(** [const licenseHeader], with what stands for its [%v]. *)
Definition licenseHeader (v : string) : string :=
  "// Copyright " +:+ v +:+ " Google LLC" +:+ NL +:+
  "//" +:+ NL +:+
  "// Licensed under the Apache License, Version 2.0 (the " +:+ dq +:+
    "License" +:+ dq +:+ ");" +:+ NL +:+
  "// you may not use this file except in compliance with the License."
    +:+ NL +:+
  "// You may obtain a copy of the License at" +:+ NL +:+
  "//" +:+ NL +:+
  "//      http://www.apache.org/licenses/LICENSE-2.0" +:+ NL +:+
  "//" +:+ NL +:+
  "// Unless required by applicable law or agreed to in writing, software"
    +:+ NL +:+
  "// distributed under the License is distributed on an " +:+ dq +:+
    "AS IS" +:+ dq +:+ " BASIS," +:+ NL +:+
  "// WITHOUT WARRANTIES OR CONDITIONS OF ANY KIND, either express or implied."
    +:+ NL +:+
  "// See the License for the specific language governing permissions and"
    +:+ NL +:+
  "// limitations under the License." +:+ NL +:+
  NL.

(** [var skip]. *)
Definition skip : gmap string bool :=
  list_to_map
    [ ("cloud.google.com/go", true);
      ("cloud.google.com/go/civil", true);
      ("cloud.google.com/go/cloudbuild/apiv1", true);
      ("cloud.google.com/go/cmd/go-cloud-debug-agent", true);
      ("cloud.google.com/go/container", true);
      ("cloud.google.com/go/containeranalysis/apiv1", true);
      ("cloud.google.com/go/grafeas/apiv1", true);
      ("cloud.google.com/go/httpreplay", true);
      ("cloud.google.com/go/httpreplay/cmd/httpr", true);
      ("cloud.google.com/go/longrunning", true);
      ("cloud.google.com/go/monitoring/apiv3", true);
      ("cloud.google.com/go/translate", true) ].

(** [m[k]] on a [map[string]bool] and on a [map[string]string]: the zero
    value when the key is absent. *)
Definition index_bool (m : gmap string bool) (k : string) : bool :=
  default false (m !! k).
Definition index_string (m : gmap string string) (k : string) : string :=
  default "" (m !! k).

(** The body of [writeExamples] that rewrites the printed source
    (lines 189-197): a block [{ ... }] loses its braces and one level of
    indentation. *)
Definition reformat (s : string) : string :=
  if strings.HasPrefix s ("{" +:+ NL) && strings.HasSuffix s (NL +:+ "}")
  then
    let lines := strings.Split s nl in
    strings.concat_all
      (map (fun line => strings.TrimPrefix line TAB +:+ NL)
           (slice 1 (length lines - 1) lines))
  else s.

(** The step of the search for the best match (lines 120-124). *)
Definition bestMatch_step (importPath : string) (bestMatch path : string)
  : string :=
  if strings.HasPrefix importPath path
  then if (String.length bestMatch <? String.length path)%nat
       then path else bestMatch
  else bestMatch.

Definition bestMatch_of (importPath : string) (keys : list string) : string :=
  fold_left (bestMatch_step importPath) keys "".

Section Gensnippets.
Context `{Runtime}.

(** [func header() string]. *)
Definition header : M string :=
  let* y := time_Now_Year in ret (licenseHeader (Sprint_int y)).

Definition START (tag : string) : string :=
  "// [START " +:+ tag +:+ "]" +:+ NL +:+ NL.
Definition END_ (tag : string) : string :=
  "// [END " +:+ tag +:+ "]" +:+ NL.

(** Where the loop of [writeExamples] writes the example [ex], [n] being
    [len(exs)] (lines 170-175). *)
Definition example_dir (outDir : string) (n : nat) (ex : Example.t)
  : string :=
  if (1 <? n)%nat then filepath.Join [outDir; Example.Suffix ex]
  else outDir.
Definition example_file (outDir : string) (n : nat) (ex : Example.t)
  : string :=
  filepath.Join [example_dir outDir n ex; "main.go"].

Definition example_node (ex : Example.t) : PrinterNode :=
  match Example.Play ex with
  | Some play => FileNode play
  | None => CommentedNode (Example.Code ex) (Example.Comments ex)
  end.

(** The body of the loop of [writeExamples] (lines 170-220). The
    deferred [f.Close()] has no effect on what the files hold. *)
Definition writeExample (outDir : string) (n : nat)
    (fset : token_FileSet) (regionTag : string) (ex : Example.t)
  : M unit :=
  let dir := example_dir outDir n ex in
  let filename := filepath.Join [dir; "main.go"] in
  let* s := format_to_string fset (example_node ex) in
  let s := reformat s in
  let* _ := os_MkdirAll dir in
  let* f := os_OpenFile filename in
  let* h := header in
  let* _ := WriteString f h in
  let tag := regionTag +:+ "_" +:+ Example.Name ex in
  let* _ := WriteString f (START tag) in
  let* _ := WriteString f s in
  WriteString f (END_ tag).

(** [func writeExamples(outDir string, exs []*doc.Example,
    fset *token.FileSet, regionTag string) error]. *)
Definition writeExamples (outDir : string) (exs : list Example.t)
    (fset : token_FileSet) (regionTag : string) : M unit :=
  if (length exs =? 0)%nat then ret tt
  else forM_ (writeExample outDir (length exs) fset regionTag) exs.

(** The search for the shortname in [processExamples] (lines 113-131). *)
Definition find_shortname (importPath : string)
    (apiShortnames : gmap string string) : M string :=
  match apiShortnames !! importPath with
  | Some shortname => ret shortname
  | None =>
      let* keys := range_keys apiShortnames in
      let bestMatch := bestMatch_of importPath keys in
      if String.eqb bestMatch ""
      then fail (Errorf "could not find API shortname for " importPath)
      else
        let* _ := log_Printf (LogBestMatch importPath bestMatch) in
        ret (index_string apiShortnames bestMatch)
  end.

Definition regionTag_of (shortname trimmed : string) : string :=
  shortname +:+ "_generated" +:+ strings.ReplaceAll trimmed slash "_".

(** The loops of [processExamples] over the functions and the types of
    the package (lines 136-161). *)
Definition write_funcs (dir : string) (fset : token_FileSet)
    (regionTag : string) (fs : list Func.t) : M unit :=
  forM_ (fun f : Func.t =>
           writeExamples (filepath.Join [dir; Func.Name f])
                         (Func.Examples f) fset regionTag) fs.

Definition write_type (outDir : string) (fset : token_FileSet)
    (regionTag : string) (t : Type_.t) : M unit :=
  let dir := filepath.Join [outDir; Type_.Name t] in
  let* _ := writeExamples dir (Type_.Examples t) fset regionTag in
  let* _ := write_funcs dir fset regionTag (Type_.Funcs t) in
  write_funcs dir fset regionTag (Type_.Methods t).

Definition write_package (pkg : Package.t) (fset : token_FileSet)
    (outDir regionTag : string) : M unit :=
  let* _ := write_funcs outDir fset regionTag (Package.Funcs pkg) in
  forM_ (write_type outDir fset regionTag) (Package.Types pkg).

(** [func processExamples(pkg *doc.Package, fset *token.FileSet,
    trimPrefix, outDir string, apiShortnames map[string]string) error]. *)
Definition processExamples (pkg : Package.t) (fset : token_FileSet)
    (trimPrefix outDir : string) (apiShortnames : gmap string string)
  : M unit :=
  if index_bool skip (Package.ImportPath pkg) then ret tt
  else
    let trimmed := strings.TrimPrefix (Package.ImportPath pkg) trimPrefix in
    let outDir := filepath.Join [outDir; trimmed] in
    let* shortname := find_shortname (Package.ImportPath pkg) apiShortnames in
    let regionTag := regionTag_of shortname trimmed in
    write_package pkg fset outDir regionTag.

End Gensnippets.

(* ===================================================================== *)
(** * [filepath.WalkDir] *)
(* ===================================================================== *)

(** A file tree as [os.Lstat] and [os.ReadDir] show it: a directory lists
    its entries (sorted by name) or cannot be read. *)
#[warnings="-register-all"]
Inductive FsTree :=
| TFile (name : string)
| TDir (name : string) (listing : option (list FsTree)).

Module DirEntry.
Record t := mk { Name : string; IsDir : bool }.
End DirEntry.

Definition entry_of (t : FsTree) : DirEntry.t :=
  match t with
  | TFile name => DirEntry.mk name false
  | TDir name _ => DirEntry.mk name true
  end.

(** What a [fs.WalkDirFunc] is called with: an entry to visit ([err] is
    nil), or the report of a failed [Lstat] of the root ([d] is nil) or of
    a failed [ReadDir]. *)
Inductive walk_call :=
| Visit (d : DirEntry.t)
| Report (d : option DirEntry.t) (err : error).

(** What it returns: [nil], [filepath.SkipDir], or another error. *)
Inductive walk_ret :=
| WalkNil
| SkipDir
| WalkErr (e : error).

Definition ReadDir_error (path : string) : error :=
  Err ("open " +:+ path +:+ ": failed").
Definition Lstat_error (path : string) : error :=
  Err ("lstat " +:+ path +:+ ": failed").

Section WalkDir.
Context {S : Type}.
(** The function called on each entry, acting on the variables it
    captures (of type [S]). *)
Variable fn : string -> walk_call -> S -> S * walk_ret.

(** The loop of [walkDir] over the entries of the directory [path]
    (lines [for _, d1 := range dirs] of [walkDir]), [walk] being
    [walkDir] itself: [SkipDir] from an entry ends the loop, another
    error is returned. *)
Section Entries.
  Variable walk : string -> FsTree -> S -> S * walk_ret.
  Variable path : string.

Fixpoint walk_entries (entries : list FsTree) (st : S) : S * walk_ret :=
  match entries with
  | [] => (st, WalkNil)
  | d1 :: rest =>
      let path1 := filepath.Join [path; DirEntry.Name (entry_of d1)] in
      match walk path1 d1 st with
      | (st', WalkNil) => walk_entries rest st'
      | (st', SkipDir) => (st', WalkNil)
      | (st', WalkErr e) => (st', WalkErr e)
      end
  end.
End Entries.

(** [func walkDir(path string, d fs.DirEntry, walkDirFn fs.WalkDirFunc)
    error]. *)
Fixpoint walkDir (path : string) (t : FsTree) (st : S) : S * walk_ret :=
  match fn path (Visit (entry_of t)) st with
  | (st1, WalkNil) =>
      match t with
      | TFile _ => (st1, WalkNil)
      | TDir _ None =>
          (* second call, to report the ReadDir error *)
          match fn path (Report (Some (entry_of t)) (ReadDir_error path)) st1
          with
          | (st2, SkipDir) => (st2, WalkNil)
          | (st2, r) => (st2, r)
          end
      | TDir _ (Some entries) => walk_entries walkDir path entries st1
      end
  | (st1, SkipDir) =>
      (st1, if DirEntry.IsDir (entry_of t) then WalkNil else SkipDir)
  | (st1, WalkErr e) => (st1, WalkErr e)
  end.

(** [func WalkDir(root string, fn fs.WalkDirFunc) error], on the tree
    found at [root] ([None] when [Lstat] fails). *)
Definition WalkDir (root : string) (tree : option FsTree) (st : S)
  : S * option error :=
  let (st', r) :=
    match tree with
    | None => fn root (Report None (Lstat_error root)) st
    | Some t => walkDir root t st
    end in
  (st', match r with WalkErr e => Some e | _ => None end).

End WalkDir.

(* ===================================================================== *)
(** * [Generate] *)
(* ===================================================================== *)

(** [pkgload.Info], with the fields the generator reads. *)
Module Info.
Record t `{AstTypes} := mk {
  Doc : Package.t;
  Fset : token_FileSet
}.
Arguments mk {_}.
End Info.

(** The programs [Generate] runs once the modules are known:
    [pkgload.Load("./...", dir, nil)], which reads the packages of a
    module, and the command [goimports -w .] run in a directory. *)
Class Toolchain `{AstTypes} := {
  pkgload_Load : string -> string -> World -> result (list Info.t);
  goimports_Run : string -> World -> World * result unit
}.

(** The file tree that [filepath.WalkDir] finds at a root. *)
Class FileTree := {
  os_tree : World -> string -> option FsTree
}.

(** How a call of [Generate] ends: it returns, or [log.Fatal] ends the
    process. *)
Inductive outcome :=
| Returns (r : result unit)
| Exits (status : nat).

(** The function literal passed to [filepath.WalkDir] (lines 47-58); it
    appends to the captured [dirs]. *)
Definition find_module (path : string) (call : walk_call) (dirs : list string)
  : list string * walk_ret :=
  match call with
  | Report _ err => (dirs, WalkErr err)
  | Visit d =>
      if String.eqb (DirEntry.Name d) "internal" then (dirs, SkipDir)
      else if String.eqb (DirEntry.Name d) "go.mod"
           then (dirs ++ [filepath.Dir path], WalkNil)
           else (dirs, WalkNil)
  end.

Section Generate.
Context `{Runtime} `{!Toolchain}.

(** The loop over the packages of a module (lines 70-74). *)
Fixpoint process_packages (pis : list Info.t) (trimPrefix outDir : string)
    (apiShortnames : gmap string string) (errs : list error) (w : World)
  : World * list error :=
  match pis with
  | [] => (w, errs)
  | pi :: rest =>
      match processExamples (Info.Doc pi) (Info.Fset pi) trimPrefix outDir
                            apiShortnames w with
      | (w', Fail err) =>
          process_packages rest trimPrefix outDir apiShortnames
            (errs ++ [Errorf "failed to process examples: " (Error err)]) w'
      | (w', Ok _) =>
          process_packages rest trimPrefix outDir apiShortnames errs w'
      end
  end.

(** The loop over the modules (lines 64-75); it returns at the first
    module that fails to load. *)
Fixpoint process_dirs (dirs : list string) (trimPrefix outDir : string)
    (apiShortnames : gmap string string) (errs : list error) (w : World)
  : World * result (list error) :=
  match dirs with
  | [] => (w, Ok errs)
  | dir :: rest =>
      match pkgload_Load "./..." dir w with
      | Fail err => (w, Fail (Errorf "failed to load packages: " (Error err)))
      | Ok pis =>
          let (w', errs') :=
            process_packages pis trimPrefix outDir apiShortnames errs w in
          process_dirs rest trimPrefix outDir apiShortnames errs' w'
      end
  end.

(** [Generate] from the log line on (lines 60-88), given the modules. *)
Definition generate_modules (dirs : list string) (outDir : string)
    (apiShortnames : gmap string string) (w : World) : World * outcome :=
  let (w1, _) := log_Printf (LogProcessing (length dirs) dirs) w in
  let trimPrefix := "cloud.google.com/go" in
  match process_dirs dirs trimPrefix outDir apiShortnames [] w1 with
  | (w2, Fail err) => (w2, Returns (Fail err))
  | (w2, Ok errs) =>
      if (0 <? length errs)%nat
      then let (w3, _) := log_Printf (LogFatal errs) w2 in (w3, Exits 1)
      else if (0 <? length dirs)%nat
           then match goimports_Run outDir w2 with
                | (w3, Fail err) =>
                    (w3, Returns (Fail (Errorf "failed to run goimports: "
                                               (Error err))))
                | (w3, Ok _) => (w3, Returns (Ok tt))
                end
           else (w2, Returns (Ok tt))
  end.

Context `{!FileTree}.

(** The modules in [rootDir] (lines 45-58); the error of the walk is
    dropped. *)
Definition find_modules (rootDir : string) (w : World) : list string :=
  fst (WalkDir find_module rootDir (os_tree w rootDir) []).

(** [func Generate(rootDir, outDir string,
    apiShortnames map[string]string) error]. *)
Definition Generate (rootDir outDir : string)
    (apiShortnames : gmap string string) (w : World) : World * outcome :=
  let rootDir := if String.eqb rootDir "" then "." else rootDir in
  let outDir :=
    if String.eqb outDir "" then "internal/generated/snippets" else outDir in
  let dirs := find_modules rootDir w in
  generate_modules dirs outDir apiShortnames w.

End Generate.

(* ===================================================================== *)
(** * Notions used to state the properties *)
(* ===================================================================== *)

(** Whether the byte [c] occurs in [s]. *)
Fixpoint contains_byte (c : ascii) (s : string) : bool :=
  match s with
  | EmptyString => false
  | String a s' => Ascii.eqb a c || contains_byte c s'
  end.

(** A line with one leading tab removed, if it has one. *)
Definition drop_one_tab (line : string) : string :=
  match line with
  | String c rest => if Ascii.eqb c tab then rest else line
  | EmptyString => EmptyString
  end.

(** A snippet file: the license header for a year, the opening marker of
    the region and a blank line, the source, the closing marker. *)
Definition snippet (year : Z) (tag body : string) : string :=
  licenseHeader (Sprint_int year) +:+
  ("// [START " +:+ tag +:+ "]" +:+ NL +:+ NL) +:+
  body +:+
  ("// [END " +:+ tag +:+ "]" +:+ NL).

(** The text made of an opening brace on a line of its own, the given
    lines, each ended by a newline, and a closing brace. *)
Definition braced (lines : list string) : string :=
  "{" +:+ NL +:+ strings.concat_all (map (fun l => l +:+ NL) lines) +:+ "}".

(** [rewritten s body]: [body] is the printed source [s] as the examples
    are written. When [s] starts with an opening brace and a newline and
    ends with a newline and a closing brace, it is the braces around some
    lines, and [body] is these lines, each without one leading tab if it
    has one, and each ended by a newline. Otherwise [body] is [s]. *)
Definition rewritten (s body : string) : Prop :=
  if strings.HasPrefix s ("{" +:+ NL) && strings.HasSuffix s (NL +:+ "}")
  then exists lines,
      Forall (fun l => contains_byte nl l = false) lines /\
      strings.Split s nl = "{" :: lines ++ ["}"] /\
      s = braced lines /\
      body = strings.concat_all
               (map (fun l => drop_one_tab l +:+ NL) lines)
  else body = s.

(** [s] with every byte [old] replaced by the byte [new]. *)
Fixpoint replace_byte (old new : ascii) (s : string) : string :=
  match s with
  | EmptyString => EmptyString
  | String c s' =>
      String (if Ascii.eqb c old then new else c) (replace_byte old new s')
  end.

(** One round of the loop of [writeExamples], as data: the directory
    [writeExamples] was called with, the number of examples of the symbol,
    and the example. *)
Definition job `{AstTypes} : Type := string * nat * Example.t.

Section Jobs.
Context `{Runtime}.

Definition job_file (j : job) : string :=
  let '(outDir, n, ex) := j in example_file outDir n ex.

Definition job_dir (j : job) : string :=
  let '(outDir, n, ex) := j in example_dir outDir n ex.

Definition job_example (j : job) : Example.t :=
  let '(_, _, ex) := j in ex.

Definition run_job (fset : token_FileSet) (regionTag : string) (j : job)
  : M unit :=
  let '(outDir, n, ex) := j in writeExample outDir n fset regionTag ex.

(** The rounds of [writeExamples] on the examples of one symbol. *)
Definition example_jobs (outDir : string) (exs : list Example.t)
  : list job :=
  map (fun ex => (outDir, length exs, ex)) exs.

(** The rounds made for a package, in the order of [processExamples]:
    the functions, then each type with its own examples, its
    constructors and its methods. *)
Definition func_jobs (dir : string) (f : Func.t) : list job :=
  example_jobs (filepath.Join [dir; Func.Name f]) (Func.Examples f).

Definition type_jobs (outDir : string) (t : Type_.t) : list job :=
  let dir := filepath.Join [outDir; Type_.Name t] in
  example_jobs dir (Type_.Examples t)
  ++ flat_map (func_jobs dir) (Type_.Funcs t)
  ++ flat_map (func_jobs dir) (Type_.Methods t).

Definition package_jobs (outDir : string) (pkg : Package.t) : list job :=
  flat_map (func_jobs outDir) (Package.Funcs pkg)
  ++ flat_map (type_jobs outDir) (Package.Types pkg).

(** What a round that is not overwritten leaves in its file: the snippet
    with the year read in that round, the tag of the example and its
    source. *)
Definition job_snippet (fset : token_FileSet) (regionTag : string)
    (t : nat) (j : job) (content : string) : Prop :=
  exists s,
    format_Node fset (example_node (job_example j)) = Ok s /\
    content = snippet (year_at (t + 2))
                      (regionTag +:+ "_" +:+ Example.Name (job_example j))
                      (reformat s).
End Jobs.

(** The examples of a package: those of its functions, and for each type
    its own, those of its constructors and those of its methods. *)
Definition all_examples `{AstTypes} (pkg : Package.t) : list Example.t :=
  flat_map Func.Examples (Package.Funcs pkg)
  ++ flat_map (fun t : Type_.t =>
                 Type_.Examples t
                 ++ flat_map Func.Examples (Type_.Funcs t)
                 ++ flat_map Func.Examples (Type_.Methods t))
              (Package.Types pkg).

(** A path element that is a name: not empty, not [.] or [..], without a
    separator. The suffix of an example is a Go identifier, so it is one
    unless it is empty. *)
Definition is_name (c : string) : bool :=
  negb (String.eqb c "") && negb (String.eqb c ".")
  && negb (String.eqb c "..") && negb (contains_byte slash c).

(** The elements kept by [Clean]: in a rooted path names only, otherwise
    some [..] elements followed by names. *)
Definition normal (rooted : bool) (out : list string) : Prop :=
  exists k names,
    out = replicate k ".." ++ names /\
    Forall (fun c => is_name c = true) names /\
    (rooted = true -> k = 0).

(** The cleaned path made of the elements [out]. *)
Definition show_path (rooted : bool) (out : list string) : string :=
  let body := strings.Join out "/" in
  if rooted then "/" +:+ body
  else if String.eqb body "" then "." else body.

(** The element added by a suffix: none when the suffix is empty. *)
Definition element_of (c : string) : list string :=
  if String.eqb c "" then [] else [c].

(** The elements of a directory given to [filepath.Join] as first
    argument: those of its cleaned form, none for the empty string. *)
Definition path_elements (p : string) : bool * list string :=
  if String.eqb p "" then (false, [])
  else
    let r := strings.HasPrefix p "/" in
    (r, fold_left (filepath.clean_step r) (strings.Split p slash) []).

(** Processing a list of packages one after the other, each once and
    whatever the fate of the others, and collecting the errors. *)
Section RunAll.
Context `{Runtime} `{!Toolchain}.
Variables (trimPrefix outDir : string) (apiShortnames : gmap string string).

Fixpoint run_all (pis : list Info.t) (w : World) : World * list error :=
  match pis with
  | [] => (w, [])
  | pi :: rest =>
      let (w1, r) :=
        processExamples (Info.Doc pi) (Info.Fset pi) trimPrefix outDir
                        apiShortnames w in
      let (w2, errs) := run_all rest w1 in
      (w2, match r with
           | Fail err =>
               Errorf "failed to process examples: " (Error err) :: errs
           | Ok _ => errs
           end)
  end.

(** [loads_from dirs w pkgss]: starting in the world [w], the packages
    of every module of [dirs] load, and are [pkgss], each module being
    loaded once the packages of the modules before it are processed. *)
Inductive loads_from : list string -> World -> list (list Info.t) -> Prop :=
| loads_nil w : loads_from [] w []
| loads_cons dir dirs w pis pkgss :
    pkgload_Load "./..." dir w = Ok pis ->
    loads_from dirs (fst (run_all pis w)) pkgss ->
    loads_from (dir :: dirs) w (pis :: pkgss).
End RunAll.

(** The name of the entry at the root of a tree. *)
Definition entry_name (t : FsTree) : string := DirEntry.Name (entry_of t).

(** The paths of the entries named [go.mod] in the tree [t] found at
    [path], in the order of the walk. *)
Fixpoint gomod_paths (path : string) (t : FsTree) : list string :=
  (if String.eqb (entry_name t) "go.mod" then [path] else [])
  ++ match t with
     | TDir _ (Some entries) =>
         flat_map (fun d => gomod_paths (filepath.Join [path; entry_name d]) d)
                  entries
     | _ => []
     end.

(** A tree in which no entry is named [internal] and every directory can
    be read. *)
Fixpoint walkable (t : FsTree) : bool :=
  negb (String.eqb (entry_name t) "internal")
  && match t with
     | TFile _ => true
     | TDir _ None => false
     | TDir _ (Some entries) => forallb walkable entries
     end.

(** What the walk of [Generate] sees of a tree found at [path]: nothing
    below a directory named [internal]; in a directory, nothing from a
    regular file named [internal] on; and nothing after the first directory
    that cannot be read, whose path is given with the part seen. *)
Section Seen.
Variable seen : string -> FsTree -> FsTree * option string.
Variable path : string.

Fixpoint seen_entries (entries : list FsTree)
  : list FsTree * option string :=
  match entries with
  | [] => ([], None)
  | d :: rest =>
      if String.eqb (entry_name d) "internal" then
        match d with
        | TDir _ _ => seen_entries rest
        | TFile _ => ([], None)
        end
      else
        match seen (filepath.Join [path; entry_name d]) d with
        | (d', Some p) => ([d'], Some p)
        | (d', None) =>
            let (rest', r) := seen_entries rest in (d' :: rest', r)
        end
  end.
End Seen.

Fixpoint seen (path : string) (t : FsTree) : FsTree * option string :=
  match t with
  | TFile _ => (t, None)
  | TDir _ None => (t, Some path)
  | TDir n (Some entries) =>
      let (entries', r) := seen_entries seen path entries in
      (TDir n (Some entries'), r)
  end.

(** The modules found in the part of the tree that is seen. *)
Definition modules_seen (root : string) (t : FsTree) : list string :=
  if String.eqb (entry_name t) "internal" then []
  else map filepath.Dir (gomod_paths root (fst (seen root t))).

(** [stops_at path t p t']: in the tree [t] found at [path], the directory
    at [p] cannot be read, it is in no directory named [internal], and
    everything that comes before it in the walk can be walked; [t'] is [t]
    without what comes after that directory. *)
Inductive stops_at : string -> FsTree -> string -> FsTree -> Prop :=
| stops_here path u :
    u <> "internal" -> stops_at path (TDir u None) path (TDir u None)
| stops_below path n before d after p d' :
    n <> "internal" ->
    forallb walkable before = true ->
    stops_at (filepath.Join [path; entry_name d]) d p d' ->
    stops_at path (TDir n (Some (before ++ d :: after))) p
             (TDir n (Some (before ++ [d']))).

(** How the walk ends: without error, or with the error of reading the
    directory at [p]. *)
Definition walk_result (r : option string) : walk_ret :=
  match r with
  | None => WalkNil
  | Some p => WalkErr (ReadDir_error p)
  end.

(** [keeps_files fs w w']: from [w] to [w'] no directory is lost, no file
    is removed, and no file is changed but those of [fs]. *)
Definition keeps_files (fs : list string) (w w' : World) : Prop :=
  dirs w ⊆ dirs w'
  /\ (forall p, ~ In p fs -> files w' !! p = files w !! p)
  /\ (forall p, is_Some (files w !! p) -> is_Some (files w' !! p)).

(** The cleaned path made of the elements of the directory [dir] followed
    by [names]. *)
Definition under (dir : string) (names : list string) : string :=
  show_path (fst (path_elements dir)) (snd (path_elements dir) ++ names).

(** [placed d lo hi j]: the file of the round [j] is [main.go] in a
    directory that lies [lo] to [hi] names below the directory [d]. *)
Definition placed `{AstTypes} (d : string) (lo hi : nat) (j : job) : Prop :=
  exists names,
    job_file j = under d (names ++ ["main.go"]) /\
    Forall (fun c => is_name c = true) names /\
    lo <= length names <= hi.

(** Packages as [go/doc] makes them: the functions, types and methods
    are named by names, and the suffix of an example is a name or empty. *)
Definition suffix_ok `{AstTypes} (ex : Example.t) : bool :=
  String.eqb (Example.Suffix ex) "" || is_name (Example.Suffix ex).

Definition func_named `{AstTypes} (f : Func.t) : bool :=
  is_name (Func.Name f) && forallb suffix_ok (Func.Examples f).

Definition type_named `{AstTypes} (t : Type_.t) : bool :=
  is_name (Type_.Name t) && forallb suffix_ok (Type_.Examples t)
  && forallb func_named (Type_.Funcs t)
  && forallb func_named (Type_.Methods t).

Definition well_named `{AstTypes} (pkg : Package.t) : bool :=
  forallb func_named (Package.Funcs pkg)
  && forallb type_named (Package.Types pkg).

(* ===================================================================== *)
(** * Sample inputs *)
(* ===================================================================== *)

Module Sample.

(** A printed block statement: two lines between braces. *)
Definition block : string :=
  "{" +:+ NL +:+ TAB +:+ TAB +:+ "x := 1" +:+ NL +:+ "y" +:+ NL +:+ "}".

(** Syntax trees standing for their own printed form. *)
Definition ast : AstTypes :=
  {| token_FileSet := unit; ast_Node := string;
     ast_CommentGroup := string; ast_File := string |}.

Definition print (fset : @token_FileSet ast) (node : @PrinterNode ast)
  : result string :=
  match node with
  | CommentedNode code _ => Ok code
  | FileNode f => Ok f
  end.

(** A run in the year 2021 in which no call fails, and maps are ranged
    over in the order of their list of entries. *)
Definition runtime : @Runtime ast :=
  {| format_Node := print : @token_FileSet ast -> _;
     year_at := fun _ => 2021%Z;
     os_fails := fun _ => false;
     os_progress := fun _ => 0;
     range_order := fun _ m => (map_to_list m).*1;
     range_order_perm := fun _ _ => reflexivity _ |}.

(** A run that passes from 2021 to 2022 after its third call. *)
Definition new_year_runtime : @Runtime ast :=
  {| format_Node := print : @token_FileSet ast -> _;
     year_at := fun n => if (n <? 3)%nat then 2021%Z else 2022%Z;
     os_fails := fun _ => false;
     os_progress := fun _ => 0;
     range_order := fun _ m => (map_to_list m).*1;
     range_order_perm := fun _ _ => reflexivity _ |}.

Definition w0 : World := mkWorld ∅ ∅ [] 0.

Definition apiShortnames : gmap string string :=
  list_to_map [ ("cloud.google.com/go/monitoring", "monitoring");
                ("cloud.google.com/go/kms/apiv1", "cloudkms");
                ("cloud.google.com/go/bigtable", "bigtable") ].

(** A map whose only key is the empty string. *)
Definition empty_key : gmap string string := {[ "" := "root" ]}.

(** A map with a key that is a prefix of another key. *)
Definition nested_keys : gmap string string :=
  list_to_map [ ("cloud.google.com/go/bigtable", "bigtable");
                ("cloud.google.com/go/big", "big") ].

(** Packages without documented symbols. *)
Definition pkg_kms : @Package.t ast :=
  Package.mk "cloud.google.com/go/kms/apiv1" [] [].
Definition pkg_bttest : @Package.t ast :=
  Package.mk "cloud.google.com/go/bigtable/bttest" [] [].
Definition pkg_other : @Package.t ast :=
  Package.mk "example.com/other" [] [].

(** Examples: a whole file that is its own playground version, and two
    examples of one symbol, told apart by their suffixes. *)
Definition ex_update : @Example.t ast :=
  @Example.mk ast "GroupClient_UpdateGroup" "" "" []
              (Some ("package main" +:+ NL)).
Definition ex_first : @Example.t ast :=
  @Example.mk ast "Client_Collection_first" "first" block [] None.
Definition ex_second : @Example.t ast :=
  @Example.mk ast "Client_Collection_second" "second" ("f()" +:+ NL)
              [] None.

(** The package of the snippet
    [monitoring/apiv3/v2/GroupClient/UpdateGroup/main.go]. *)
Definition pkg_monitoring : @Package.t ast :=
  Package.mk "cloud.google.com/go/monitoring/apiv3/v2" []
    [ Type_.mk "GroupClient" [] []
        [ Func.mk "UpdateGroup" [ex_update] ] ].

(** Modules [a], [b] and [c]: the package of [a] has no shortname, the
    packages of [b] do not load, the package of [c] has an example. *)
Definition info_other : @Info.t ast := Info.mk pkg_other tt.
Definition info_monitoring : @Info.t ast := Info.mk pkg_monitoring tt.

Definition toolchain : @Toolchain ast :=
  {| pkgload_Load := fun _ dir _ =>
       if String.eqb dir "a" then Ok [info_other]
       else if String.eqb dir "b" then Fail (Err "no Go files")
       else if String.eqb dir "c" then Ok [info_monitoring]
       else Ok [];
     goimports_Run := fun _ w => (w, Ok tt) |}.

Definition module_dir (name : string) : FsTree :=
  TDir name (Some [TFile "go.mod"]).

Definition tree_abc : FsTree :=
  TDir "." (Some [module_dir "a"; module_dir "b"; module_dir "c"]).
Definition tree_ac : FsTree :=
  TDir "." (Some [module_dir "a"; module_dir "c"]).

(** A tree whose only module lies in a directory named [internal]. *)
Definition tree_internal : FsTree :=
  TDir "." (Some [TDir "internal" (Some [module_dir "tools"])]).

Definition file_tree (t : FsTree) : FileTree :=
  {| os_tree := fun _ _ => Some t |}.

(** The packages that load in each of the modules [a], [b] and [c]. *)
Definition loadable (dir : string) : list (@Info.t ast) :=
  if String.eqb dir "a" then [info_other]
  else if String.eqb dir "c" then [info_monitoring]
  else [].

(** A file system that shows the tree [t] before any call is made and
    nothing afterwards. *)
Definition file_tree_once (t : FsTree) : FileTree :=
  {| os_tree := fun w _ => if (tick w =? 0)%nat then Some t else None |}.

(** A run in which the call numbered [k] fails and no other, after
    making one directory or writing one byte. *)
Definition failing_at (k : nat) : @Runtime ast :=
  {| format_Node := print : @token_FileSet ast -> _;
     year_at := fun _ => 2021%Z;
     os_fails := fun n => (n =? k)%nat;
     os_progress := fun _ => 1;
     range_order := fun _ m => (map_to_list m).*1;
     range_order_perm := fun _ _ => reflexivity _ |}.

(** A printer that fails on the node ["bad"]. *)
Definition picky_print (fset : @token_FileSet ast) (node : @PrinterNode ast)
  : result string :=
  match node with
  | CommentedNode code _ =>
      if String.eqb code "bad" then Fail (Err "syntax error") else Ok code
  | FileNode f => Ok f
  end.

Definition picky_runtime : @Runtime ast :=
  {| format_Node := picky_print : @token_FileSet ast -> _;
     year_at := fun _ => 2021%Z;
     os_fails := fun _ => false;
     os_progress := fun _ => 0;
     range_order := fun _ m => (map_to_list m).*1;
     range_order_perm := fun _ _ => reflexivity _ |}.

Definition ex_bad : @Example.t ast :=
  @Example.mk ast "Client_Collection_bad" "bad" "bad" [] None.

(** A world that already holds a file where [ex_update] is written. *)
Definition w_old : World :=
  mkWorld {[ "out/main.go" := "old" ]} ∅ [] 0.

(** A tree with a directory that cannot be read between the modules [a]
    and [c]. *)
Definition tree_unreadable : FsTree :=
  TDir "." (Some [module_dir "a"; TDir "b" None; module_dir "c"]).

End Sample.

(* ===================================================================== *)
(** * Properties of the Go library functions *)
(* ===================================================================== *)

#[local] Arguments String.append !s1 s2 : simpl nomatch.

Section StringFacts.
Import strings.

Lemma append_nil_r s : s +:+ "" = s.
Proof. induction s; simpl; congruence. Qed.

Lemma append_assoc s t u : (s +:+ t) +:+ u = s +:+ (t +:+ u).
Proof. induction s; simpl; congruence. Qed.

Lemma length_append s t : String.length (s +:+ t) = String.length s + String.length t.
Proof. induction s; simpl; congruence. Qed.

Lemma slice_to_app p t : slice_to (String.length p) (p +:+ t) = p.
Proof. unfold slice_to. induction p; simpl. - destruct t; reflexivity. - congruence. Qed.

Lemma slice_from_app p t : slice_from (String.length p) (p +:+ t) = t.
Proof. induction p; simpl; auto. Qed.

Lemma slice_to_from n s : slice_to n s +:+ slice_from n s = s.
Proof.
  unfold slice_to. revert s; induction n; intros [|c s]; simpl; auto.
  f_equal. apply IHn.
Qed.

Lemma HasPrefix_spec s p : HasPrefix s p = true <-> exists t, s = p +:+ t.
Proof.
  unfold HasPrefix. rewrite andb_true_iff, Nat.leb_le, String.eqb_eq. split.
  - intros [_ E]. exists (slice_from (String.length p) s).
    rewrite <- E at 1. symmetry. apply slice_to_from.
  - intros [t ->]. rewrite length_append, slice_to_app. split; [lia|reflexivity].
Qed.

Lemma TrimPrefix_app p t : TrimPrefix (p +:+ t) p = t.
Proof.
  unfold TrimPrefix.
  replace (HasPrefix (p +:+ t) p) with true
    by (symmetry; apply HasPrefix_spec; eauto).
  apply slice_from_app.
Qed.

Lemma HasSuffix_spec s suf : HasSuffix s suf = true <-> exists t, s = t +:+ suf.
Proof.
  unfold HasSuffix. rewrite andb_true_iff, Nat.leb_le, String.eqb_eq. split.
  - intros [L E]. exists (slice_to (String.length s - String.length suf) s).
    rewrite <- E at 2. symmetry. apply slice_to_from.
  - intros [t ->]. rewrite length_append.
    replace (String.length t + String.length suf - String.length suf) with (String.length t) by lia.
    rewrite slice_from_app. split; [lia|reflexivity].
Qed.

Lemma Split_nonempty s sep : Split s sep <> [].
Proof. destruct s as [|c s]; simpl; [discriminate|]. destruct (Ascii.eqb c sep); [discriminate|]. destruct (Split s sep); discriminate. Qed.

Lemma Split_app_sep u v sep :
  Split (u +:+ String sep v) sep = Split u sep ++ Split v sep.
Proof.
  induction u as [|c u IH]; simpl.
  - rewrite Ascii.eqb_refl. reflexivity.
  - destruct (Ascii.eqb c sep); rewrite IH; [reflexivity|].
    destruct (Split u sep) eqn:E; [by apply Split_nonempty in E|reflexivity].
Qed.

Lemma Join_Split s sep : Join (Split s sep) (String sep "") = s.
Proof.
  unfold Join. induction s as [|c s IH]; simpl; [reflexivity|].
  destruct (Ascii.eqb_spec c sep) as [->|Hne].
  - destruct (Split s sep) eqn:E; [by apply Split_nonempty in E|].
    simpl. simpl in IH. rewrite IH. reflexivity.
  - destruct (Split s sep) as [|p [|q ps]] eqn:E; [by apply Split_nonempty in E| |];
      simpl in *; congruence.
Qed.
End StringFacts.

Section ReformatFacts.
Import strings.

Lemma Split_no_sep s sep : Forall (fun p => contains_byte sep p = false) (Split s sep).
Proof.
  induction s as [|c s IH]; simpl.
  - repeat constructor.
  - destruct (Ascii.eqb c sep) eqn:E.
    + constructor; [reflexivity|assumption].
    + destruct (Split s sep); [repeat constructor; simpl; by rewrite E|].
      inversion IH; subst. constructor; [simpl; by rewrite E|assumption].
Qed.

Lemma Join_snoc sep l x :
  Join (l ++ [x]) sep = concat_all (map (fun p => p +:+ sep) l) +:+ x.
Proof.
  unfold Join. induction l as [|a l IH]; [reflexivity|].
  cbn [map concat_all]. rewrite append_assoc, <- IH.
  destruct l; cbn [app String.concat]; by rewrite append_assoc.
Qed.

Lemma TrimPrefix_TAB line : TrimPrefix line TAB = drop_one_tab line.
Proof.
  destruct line as [|c r]; [reflexivity|].
  unfold TrimPrefix, HasPrefix, slice_to, TAB. simpl.
  destruct r; simpl; destruct (Ascii.eqb_spec c tab); subst; simpl; try reflexivity;
  rewrite ?Ascii.eqb_refl; simpl; try reflexivity;
  destruct (Ascii.eqb_spec c tab); congruence.
Qed.

Lemma slice_middle {A} (a z : A) (mid : list A) :
  slice 1 (length (a :: mid ++ [z]) - 1) (a :: mid ++ [z]) = mid.
Proof.
  unfold slice. simpl. rewrite length_app. simpl.
  replace (length mid + 1 - 0) with (S (length mid)) by lia.
  simpl. rewrite take_app_length. reflexivity.
Qed.

Lemma guarded_lines s :
  HasPrefix s ("{" +:+ NL) = true -> HasSuffix s (NL +:+ "}") = true ->
  exists lines, Split s nl = "{" :: lines ++ ["}"] /\ s = braced lines.
Proof.
  intros [t Ht]%HasPrefix_spec [u Hu]%HasSuffix_spec.
  assert (E1 : Split s nl = "{" :: Split t nl).
  { subst s. reflexivity. }
  assert (E2 : Split s nl = Split u nl ++ ["}"]).
  { rewrite Hu. unfold NL. simpl. rewrite Split_app_sep. reflexivity. }
  destruct (Split u nl) as [|a mid] eqn:Eu; [by apply Split_nonempty in Eu|].
  rewrite E2 in E1. simpl in E1. injection E1 as -> Et.
  exists mid. split; [by rewrite E2|].
  rewrite Ht. unfold braced. rewrite !append_assoc. do 2 f_equal.
  rewrite <- Join_snoc, Et. symmetry. apply Join_Split.
Qed.
End ReformatFacts.

Section ReformatLines.
Import strings.

Lemma Split_without_sep l sep :
  contains_byte sep l = false -> Split l sep = [l].
Proof.
  induction l as [|c l IH]; simpl; [reflexivity|].
  intros [E1 E2]%orb_false_iff. rewrite E1, IH by assumption. reflexivity.
Qed.

Lemma Split_lines lines tail_ :
  Forall (fun l => contains_byte nl l = false) lines ->
  Split (concat_all (map (fun l => l +:+ NL) lines) +:+ tail_) nl
  = lines ++ Split tail_ nl.
Proof.
  induction 1 as [|l ls Hl _ IH]; [reflexivity|].
  cbn [map concat_all]. unfold NL at 1.
  rewrite !append_assoc. cbn [String.append].
  rewrite Split_app_sep, IH, Split_without_sep by assumption. reflexivity.
Qed.

Lemma Split_braced lines :
  Forall (fun l => contains_byte nl l = false) lines ->
  Split (braced lines) nl = "{" :: lines ++ ["}"].
Proof.
  intros Hl. unfold braced.
  change ("{" +:+ NL +:+ ?x) with (String "{" (String nl x)).
  cbn [Split]. change (Ascii.eqb "{" nl) with false.
  change (Ascii.eqb nl nl) with true. cbv iota.
  by rewrite Split_lines.
Qed.

Lemma concat_all_app a b : concat_all (a ++ b) = concat_all a +:+ concat_all b.
Proof.
  induction a as [|x a IH]; cbn [app concat_all]; [reflexivity|].
  by rewrite IH, append_assoc.
Qed.

Lemma braced_guard lines :
  HasPrefix (braced lines) ("{" +:+ NL) && HasSuffix (braced lines) (NL +:+ "}")
  = true.
Proof.
  apply andb_true_iff. split.
  - apply HasPrefix_spec. eexists. unfold braced.
    rewrite <- append_assoc. reflexivity.
  - apply HasSuffix_spec. unfold braced.
    destruct lines as [|l ls _] using rev_ind.
    + exists "{". reflexivity.
    + exists ("{" +:+ NL +:+ concat_all (map (fun l => l +:+ NL) ls) +:+ l).
      rewrite map_app, concat_all_app. cbn [map concat_all].
      by rewrite !append_assoc.
Qed.

Lemma reformat_lines s lines :
  HasPrefix s ("{" +:+ NL) && HasSuffix s (NL +:+ "}") = true ->
  Split s nl = "{" :: lines ++ ["}"] ->
  reformat s = concat_all (map (fun l => drop_one_tab l +:+ NL) lines).
Proof.
  intros G E. unfold reformat. rewrite G, E, slice_middle.
  f_equal. apply map_ext. intros l. by rewrite TrimPrefix_TAB.
Qed.

End ReformatLines.

(* ===================================================================== *)
(** * The search for the shortname *)
(* ===================================================================== *)

Section BestMatch.
Import strings.

(** Two prefixes of one string that have the same length are equal. *)
Lemma prefixes_same_length s p q :
  HasPrefix s p = true -> HasPrefix s q = true ->
  String.length p = String.length q -> p = q.
Proof.
  unfold HasPrefix. rewrite !andb_true_iff, !String.eqb_eq.
  intros [_ Ep] [_ Eq_] L. rewrite <- Ep, <- Eq_, L. reflexivity.
Qed.

Lemma bestMatch_step_cases ip best path :
  (bestMatch_step ip best path = best) \/
  (bestMatch_step ip best path = path /\ HasPrefix ip path = true /\
   String.length best < String.length path).
Proof.
  unfold bestMatch_step. destruct (HasPrefix ip path); [|by left].
  destruct (Nat.ltb_spec (String.length best) (String.length path)); auto.
Qed.

Lemma bestMatch_step_length ip best path :
  String.length best <= String.length (bestMatch_step ip best path) /\
  (HasPrefix ip path = true ->
   String.length path <= String.length (bestMatch_step ip best path)).
Proof.
  unfold bestMatch_step. destruct (HasPrefix ip path); [|split; [lia|discriminate]].
  destruct (Nat.ltb_spec (String.length best) (String.length path)); lia.
Qed.

(** What the loop computes from a current best match [best]. *)
Lemma bestMatch_fold ip keys best :
  let r := fold_left (bestMatch_step ip) keys best in
  (r = best \/ (In r keys /\ HasPrefix ip r = true)) /\
  String.length best <= String.length r /\
  (forall k, In k keys -> HasPrefix ip k = true ->
             String.length k <= String.length r).
Proof.
  revert best. induction keys as [|k keys IH]; intros best; cbn [fold_left].
  - split; [by left|]. split; [lia|]. intros ? [].
  - specialize (IH (bestMatch_step ip best k)). cbv zeta in IH.
    destruct IH as (Hr & Hlen & Hmax).
    pose proof (bestMatch_step_length ip best k) as [L1 L2].
    split; [|split].
    + destruct Hr as [Hr|[Hin Hp]]; [|right; split; [by right|assumption]].
      destruct (bestMatch_step_cases ip best k) as [E|(E & Hp & _)].
      * left. congruence.
      * right. rewrite Hr, E. split; [by left|assumption].
    + lia.
    + intros k' [<-|Hin] Hp; [specialize (L2 Hp); lia|by apply Hmax].
Qed.

(** The best match is the empty string, or a key that is a prefix of the
    import path and is at least as long as any other such key. *)
Lemma bestMatch_of_spec ip keys :
  let r := bestMatch_of ip keys in
  (r = "" \/ (In r keys /\ HasPrefix ip r = true)) /\
  (forall k, In k keys -> HasPrefix ip k = true ->
             String.length k <= String.length r).
Proof.
  pose proof (bestMatch_fold ip keys "") as (H1 & _ & H3). by split.
Qed.

Lemma length_zero_empty s : String.length s = 0 -> s = "".
Proof. by destruct s. Qed.

(** The best match depends on the set of keys only, not on their order. *)
Lemma bestMatch_of_order ip keys1 keys2 :
  (forall k, In k keys1 <-> In k keys2) ->
  bestMatch_of ip keys1 = bestMatch_of ip keys2.
Proof.
  intros Hk.
  destruct (bestMatch_of_spec ip keys1) as [H1 M1].
  destruct (bestMatch_of_spec ip keys2) as [H2 M2].
  destruct H1 as [E1|[I1 P1]], H2 as [E2|[I2 P2]].
  - congruence.
  - apply Hk in I2. specialize (M1 _ I2 P2). rewrite E1 in *.
    cbn in M1. symmetry. apply length_zero_empty. lia.
  - apply Hk in I1. specialize (M2 _ I1 P1). rewrite E2 in *.
    cbn in M2. apply length_zero_empty. lia.
  - apply (prefixes_same_length ip); [assumption..|].
    pose proof I1 as I1'. apply Hk in I1'. apply Hk in I2.
    specialize (M1 _ I2 P2). specialize (M2 _ I1' P1). lia.
Qed.

Lemma keys_of_map (m : gmap string string) (keys : list string) k :
  keys ≡ₚ (map_to_list m).*1 -> (In k keys <-> k ∈ dom m).
Proof.
  intros Hp. rewrite <- list_elem_of_In, Hp, elem_of_dom.
  rewrite list_elem_of_fmap. split.
  - intros [[k' v] [-> Hin]]. apply elem_of_map_to_list in Hin. eauto.
  - intros [v Hv]. exists (k, v). split; [reflexivity|].
    by apply elem_of_map_to_list.
Qed.

(** The best match when a non-empty key is a longest prefix. *)
Lemma bestMatch_of_longest ip keys k :
  In k keys -> k <> "" -> HasPrefix ip k = true ->
  (forall k', In k' keys -> HasPrefix ip k' = true ->
              String.length k' <= String.length k) ->
  bestMatch_of ip keys = k.
Proof.
  intros Hin Hne Hp Hmax.
  destruct (bestMatch_of_spec ip keys) as [[E|[I P]] M].
  - specialize (M _ Hin Hp). rewrite E in M. cbn in M.
    destruct Hne. apply length_zero_empty. lia.
  - apply (prefixes_same_length ip); [assumption..|].
    specialize (M _ Hin Hp). specialize (Hmax _ I P). lia.
Qed.

(** The best match when no non-empty key is a prefix. *)
Lemma bestMatch_of_none ip keys :
  (forall k, In k keys -> HasPrefix ip k = true -> k = "") ->
  bestMatch_of ip keys = "".
Proof.
  intros Hn. destruct (bestMatch_of_spec ip keys) as [[E|[I P]] _]; eauto.
Qed.

End BestMatch.

Section Shortname.
Import strings.
Context `{Runtime}.

Lemma range_order_dom n (m : gmap string string) k :
  In k (range_order n m) <-> k ∈ dom m.
Proof. apply keys_of_map, range_order_perm. Qed.

Lemma find_shortname_exact ip m sn w :
  m !! ip = Some sn -> find_shortname ip m w = (w, Ok sn).
Proof. intros E. unfold find_shortname. by rewrite E. Qed.

Lemma find_shortname_longest ip m k sn w :
  m !! ip = None -> m !! k = Some sn -> k <> "" -> HasPrefix ip k = true ->
  (forall k', k' ∈ dom m -> HasPrefix ip k' = true ->
              String.length k' <= String.length k) ->
  find_shortname ip m w = (fst (log_Printf (LogBestMatch ip k) w), Ok sn).
Proof.
  intros E Ek Hne Hp Hmax. unfold find_shortname. rewrite E.
  unfold bind, range_keys.
  assert (B : bestMatch_of ip (range_order (tick w) m) = k).
  { apply bestMatch_of_longest; try assumption.
    - apply range_order_dom, elem_of_dom. eauto.
    - intros k' Hin. apply Hmax. by apply range_order_dom in Hin. }
  rewrite B. destruct (String.eqb_spec k ""); [contradiction|].
  cbn. unfold index_string. by rewrite Ek.
Qed.

Lemma find_shortname_none ip m w :
  m !! ip = None ->
  (forall k, k ∈ dom m -> HasPrefix ip k = true -> k = "") ->
  find_shortname ip m w
  = (w, Fail (Errorf "could not find API shortname for " ip)).
Proof.
  intros E Hn. unfold find_shortname. rewrite E. unfold bind, range_keys.
  rewrite bestMatch_of_none; [reflexivity|].
  intros k Hin. apply Hn. by apply range_order_dom in Hin.
Qed.

(** C3 (amended). For a package that is not skipped, [processExamples]
    goes on to write the examples with the region tag built from: the value
    at the import path when the import path is a key of [apiShortnames];
    otherwise the value at the longest non-empty key that is a prefix of the
    import path (after logging the match); and when no non-empty key is a
    prefix of the import path it returns an error, the world (and so every
    file) being left as it was. *)
Theorem processExamples_shortname (pkg : Package.t) (fset : token_FileSet)
    (trimPrefix outDir : string) (m : gmap string string) (w : World) :
  let ip := Package.ImportPath pkg in
  let trimmed := TrimPrefix ip trimPrefix in
  let dir := filepath.Join [outDir; trimmed] in
  index_bool skip ip = false ->
  (forall sn, m !! ip = Some sn ->
     processExamples pkg fset trimPrefix outDir m w
     = write_package pkg fset dir (regionTag_of sn trimmed) w)
  /\ (forall k sn,
        m !! ip = None -> m !! k = Some sn -> k <> "" ->
        HasPrefix ip k = true ->
        (forall k', k' ∈ dom m -> HasPrefix ip k' = true ->
                    String.length k' <= String.length k) ->
        processExamples pkg fset trimPrefix outDir m w
        = write_package pkg fset dir (regionTag_of sn trimmed)
            (fst (log_Printf (LogBestMatch ip k) w)))
  /\ (m !! ip = None ->
      (forall k, k ∈ dom m -> HasPrefix ip k = true -> k = "") ->
      processExamples pkg fset trimPrefix outDir m w
      = (w, Fail (Errorf "could not find API shortname for " ip))).
Proof.
  intros ip trimmed dir Hskip. unfold processExamples. fold ip.
  rewrite Hskip. fold trimmed. fold dir.
  split; [|split]; unfold bind at 1.
  - intros sn E. by rewrite (find_shortname_exact ip m sn w E).
  - intros k sn E Ek Hne Hp Hmax.
    by rewrite (find_shortname_longest ip m k sn w E Ek Hne Hp Hmax).
  - intros E Hn. by rewrite (find_shortname_none ip m w E Hn).
Qed.

End Shortname.

(** C9. The search for the best match does not depend on the order in
    which the keys of the map are ranged over: two runs, whatever their
    environments and worlds, find the same best match and return the same
    shortname or the same error; two different keys that are prefixes of
    the import path differ in length; and a step of the loop changes the
    best match only to a prefix that is strictly longer. *)
Theorem bestMatch_deterministic `{AstTypes} (R1 R2 : Runtime)
    (ip : string) (m : gmap string string) (w1 w2 : World) :
  bestMatch_of ip (@range_order _ R1 (tick w1) m)
  = bestMatch_of ip (@range_order _ R2 (tick w2) m)
  /\ snd (@find_shortname _ R1 ip m w1) = snd (@find_shortname _ R2 ip m w2)
  /\ (forall p q, p ∈ dom m -> q ∈ dom m ->
        strings.HasPrefix ip p = true -> strings.HasPrefix ip q = true ->
        p <> q -> String.length p <> String.length q)
  /\ (forall best path,
        bestMatch_step ip best path <> best ->
        bestMatch_step ip best path = path /\
        strings.HasPrefix ip path = true /\
        String.length best < String.length path).
Proof.
  assert (B : bestMatch_of ip (@range_order _ R1 (tick w1) m)
              = bestMatch_of ip (@range_order _ R2 (tick w2) m)).
  { apply bestMatch_of_order. intros k.
    by rewrite (@range_order_dom _ R1), (@range_order_dom _ R2). }
  split; [exact B|]. split; [|split].
  - unfold find_shortname. destruct (m !! ip); [reflexivity|].
    unfold bind, range_keys. rewrite B.
    by destruct (String.eqb _ "").
  - intros p q _ _ Hp Hq Hne L. apply Hne.
    by apply (prefixes_same_length ip).
  - intros best path Hne.
    destruct (bestMatch_step_cases ip best path) as [E|E]; [contradiction|].
    exact E.
Qed.

Section ShortnameExamples.
Import strings.
#[local] Existing Instance Sample.ast.
#[local] Existing Instance Sample.runtime.

Lemma sample_keys k :
  k ∈ dom Sample.apiShortnames ->
  k = "cloud.google.com/go/monitoring" \/ k = "cloud.google.com/go/kms/apiv1"
  \/ k = "cloud.google.com/go/bigtable".
Proof.
  intros [v Hv]%elem_of_dom. unfold Sample.apiShortnames in Hv.
  apply elem_of_list_to_map_2 in Hv.
  repeat (apply elem_of_cons in Hv as [[= -> _]|Hv]; [tauto|]).
  by apply elem_of_nil in Hv.
Qed.

Lemma processExamples_shortname_witness :
  let out := "internal/generated/snippets" in
  let trim := "cloud.google.com/go" in
  processExamples Sample.pkg_kms tt trim out Sample.apiShortnames Sample.w0
  = write_package Sample.pkg_kms tt
      (filepath.Join [out; TrimPrefix "cloud.google.com/go/kms/apiv1" trim])
      (regionTag_of "cloudkms" (TrimPrefix "cloud.google.com/go/kms/apiv1" trim))
      Sample.w0
  /\ processExamples Sample.pkg_bttest tt trim out Sample.apiShortnames Sample.w0
     = write_package Sample.pkg_bttest tt
         (filepath.Join
            [out; TrimPrefix "cloud.google.com/go/bigtable/bttest" trim])
         (regionTag_of "bigtable"
            (TrimPrefix "cloud.google.com/go/bigtable/bttest" trim))
         (fst (log_Printf (LogBestMatch "cloud.google.com/go/bigtable/bttest"
                                        "cloud.google.com/go/bigtable")
                          Sample.w0))
  /\ processExamples Sample.pkg_other tt trim out Sample.apiShortnames Sample.w0
     = (Sample.w0,
        Fail (Errorf "could not find API shortname for " "example.com/other")).
Proof.
  intros out trim. split; [|split].
  - apply (proj1 (processExamples_shortname Sample.pkg_kms tt trim out
                    Sample.apiShortnames Sample.w0 eq_refl)).
    reflexivity.
  - apply (proj1 (proj2 (processExamples_shortname Sample.pkg_bttest tt trim out
                    Sample.apiShortnames Sample.w0 eq_refl))
             "cloud.google.com/go/bigtable").
    + reflexivity.
    + reflexivity.
    + discriminate.
    + reflexivity.
    + intros k' Hk' Hp.
      destruct (sample_keys k' Hk') as [->|[->| ->]];
        first [discriminate Hp | vm_compute; lia].
  - apply (proj2 (proj2 (processExamples_shortname Sample.pkg_other tt trim out
                    Sample.apiShortnames Sample.w0 eq_refl))).
    + reflexivity.
    + intros k Hk Hp.
      destruct (sample_keys k Hk) as [->|[->| ->]]; discriminate Hp.
Defined.

(** C3 as first stated fails: with a map whose only key is the empty
    string, that key is the longest key that is a prefix of the import
    path, yet [processExamples] takes no shortname from it and returns the
    error. *)
Lemma processExamples_shortname_counterexample :
  ~ (forall (pkg : Package.t) (m : gmap string string) (k sn : string),
       let ip := Package.ImportPath pkg in
       index_bool skip ip = false ->
       m !! ip = None -> m !! k = Some sn -> HasPrefix ip k = true ->
       (forall k', k' ∈ dom m -> HasPrefix ip k' = true ->
                   String.length k' <= String.length k) ->
       processExamples pkg tt "cloud.google.com/go" "out" m Sample.w0
       = write_package pkg tt
           (filepath.Join ["out"; TrimPrefix ip "cloud.google.com/go"])
           (regionTag_of sn (TrimPrefix ip "cloud.google.com/go"))
           (fst (log_Printf (LogBestMatch ip k) Sample.w0))).
Proof.
  intros C.
  specialize (C Sample.pkg_other Sample.empty_key "" "root"
                eq_refl eq_refl eq_refl eq_refl).
  assert (Hmax : forall k', k' ∈ dom Sample.empty_key ->
            HasPrefix "example.com/other" k' = true ->
            String.length k' <= String.length "").
  { intros k' Hk' _. unfold Sample.empty_key in Hk'.
    rewrite dom_singleton_L in Hk'. apply elem_of_singleton in Hk'.
    by subst k'. }
  specialize (C Hmax). vm_compute in C. discriminate C.
Qed.

Lemma bestMatch_deterministic_witness :
  String.length "cloud.google.com/go/bigtable"
  <> String.length "cloud.google.com/go/big"
  /\ String.length "" < String.length "cloud.google.com/go/big".
Proof.
  destruct (bestMatch_deterministic Sample.runtime Sample.runtime
              "cloud.google.com/go/bigtable/bttest" Sample.nested_keys
              Sample.w0 Sample.w0) as (_ & _ & Hlen & Hstep).
  split.
  - apply Hlen; try reflexivity; try discriminate;
      apply elem_of_dom; eexists; reflexivity.
  - apply (Hstep "" "cloud.google.com/go/big"). discriminate.
Defined.

End ShortnameExamples.

(* ===================================================================== *)
(** * The effect of [writeExamples] *)
(* ===================================================================== *)

Section MonadFacts.

Lemma bind_ok {A B} (m : M A) (k : A -> M B) w w' b :
  bind m k w = (w', Ok b) ->
  exists w1 a, m w = (w1, Ok a) /\ k a w1 = (w', Ok b).
Proof.
  unfold bind. destruct (m w) as [w1 [a|e]]; [eauto|discriminate].
Qed.

Lemma forM_nil {A} (f : A -> M unit) w : forM_ f [] w = (w, Ok tt).
Proof. reflexivity. Qed.

Lemma forM_cons_ok {A} (f : A -> M unit) x xs w w' :
  forM_ f (x :: xs) w = (w', Ok tt) ->
  exists w1, f x w = (w1, Ok tt) /\ forM_ f xs w1 = (w', Ok tt).
Proof.
  cbn [forM_]. intros (w1 & [] & E1 & E2)%bind_ok. eauto.
Qed.

End MonadFacts.

Section WriteExample.
Context `{Runtime}.

Lemma syscall_ok {A} op path (effect : World -> World * A) partial w w' a :
  syscall op path effect partial w = (w', Ok a) ->
  os_fails (tick w) = false /\ effect (with_tick w) = (w', a).
Proof.
  unfold syscall. destruct (os_fails (tick w)); [discriminate|].
  destruct (effect (with_tick w)) as [w1 a1]. intros [= -> ->]. done.
Qed.

(** One round of the loop of [writeExamples] that returns without error:
    the example was printed, seven calls were made, none of which failed,
    and the world has the snippet at the file of the example and the
    directory of the example with its parents. *)
Lemma writeExample_ok outDir n fset regionTag ex w w' :
  writeExample outDir n fset regionTag ex w = (w', Ok tt) ->
  exists s,
    format_Node fset (example_node ex) = Ok s /\
    w' = mkWorld
           (<[example_file outDir n ex :=
                snippet (year_at (tick w + 2))
                        (regionTag +:+ "_" +:+ Example.Name ex) (reformat s)]>
              (files w))
           (dirs w ∪ list_to_set (parents (example_dir outDir n ex)))
           (logged w) (tick w + 7).
Proof.
  unfold writeExample.
  intros (w1 & s & Ef & K)%bind_ok.
  unfold format_to_string in Ef. injection Ef as <- Ef.
  apply bind_ok in K as (w2 & [] & [F1 E1]%syscall_ok & K).
  apply bind_ok in K as (w3 & f & [F2 E2]%syscall_ok & K).
  apply bind_ok in K as (w4 & h & Eh & K).
  apply bind_ok in K as (w5 & [] & [F3 E3]%syscall_ok & K).
  apply bind_ok in K as (w6 & [] & [F4 E4]%syscall_ok & K).
  apply bind_ok in K as (w7 & [] & [F5 E5]%syscall_ok & K).
  apply syscall_ok in K as [F6 E6].
  exists s. split; [assumption|].
  unfold header, bind, time_Now_Year, ret in Eh.
  apply pair_equal_spec in E1 as [<- _], E2 as [<- <-], Eh as [<- Eh],
    E3 as [<- _], E4 as [<- _], E5 as [<- _], E6 as [<- _].
  injection Eh as <-.
  unfold append_to, add_dirs.
  cbn [with_tick files dirs logged tick].
  f_equal; [|lia].
  rewrite !lookup_insert_eq. cbn [default from_option id].
  rewrite !insert_insert_eq.
  unfold snippet, START, END_, example_file.
  replace (S (S (tick w))) with (tick w + 2) by lia.
  change ("" +:+ ?x) with x. by rewrite !append_assoc.
Qed.

End WriteExample.

Section JobLoop.
Context `{Runtime}.
Variable fset : token_FileSet.
Variable regionTag : string.

Lemma run_job_ok j w w' :
  run_job fset regionTag j w = (w', Ok tt) ->
  exists c,
    job_snippet fset regionTag (tick w) j c /\
    w' = mkWorld (<[job_file j := c]> (files w))
                 (dirs w ∪ list_to_set (parents (job_dir j)))
                 (logged w) (tick w + 7).
Proof.
  destruct j as [[outDir n] ex]. cbn [run_job].
  intros (s & Ef & ->)%writeExample_ok.
  eexists. split; [exists s; split; [exact Ef|reflexivity]|reflexivity].
Qed.

(** A run of rounds without error: each round makes seven calls, nothing
    is logged, a file that is the file of no round is untouched, and the
    file of a round that no later round writes holds the snippet of that
    round. *)
Lemma jobs_loop_ok jobs w w' :
  forM_ (run_job fset regionTag) jobs w = (w', Ok tt) ->
  tick w' = tick w + 7 * length jobs
  /\ logged w' = logged w
  /\ (forall p, (forall j, In j jobs -> job_file j <> p) ->
                files w' !! p = files w !! p)
  /\ (forall before j after,
        jobs = before ++ j :: after ->
        (forall j', In j' after -> job_file j' <> job_file j) ->
        exists c,
          job_snippet fset regionTag (tick w + 7 * length before) j c /\
          files w' !! job_file j = Some c).
Proof.
  revert w. induction jobs as [|j0 jobs IH]; intros w.
  - rewrite forM_nil. intros [= <-]. cbn [length]. split; [lia|].
    split; [reflexivity|]. split; [reflexivity|].
    intros [|? ?] ? ? E; discriminate E.
  - intros (w1 & E0 & E)%forM_cons_ok.
    apply run_job_ok in E0 as (c0 & Hc0 & ->).
    destruct (IH _ E) as (Ht & Hl & Hframe & Hlast). clear IH E.
    cbn [tick logged files] in *.
    split; [cbn [length]; lia|]. split; [assumption|]. split.
    + intros p Hp. rewrite Hframe by (intros j Hj; apply Hp; by right).
      apply lookup_insert_ne. apply Hp. by left.
    + intros [|b before] j after Ejobs Hafter.
      * cbn [app] in Ejobs. injection Ejobs as -> ->.
        exists c0. split.
        { cbn [length]. by replace (tick w + 7 * 0) with (tick w) by lia. }
        rewrite Hframe by assumption. apply lookup_insert_eq.
      * cbn [app] in Ejobs. injection Ejobs as -> ->.
        destruct (Hlast before j after eq_refl Hafter) as (c & Hc & Hf).
        exists c. split; [|assumption].
        cbn [length].
        by replace (tick w + 7 * S (length before))
             with (tick w + 7 + 7 * length before) by lia.
Qed.

Lemma writer_or_none (jobs : list job) p :
  (exists j, In j jobs /\ job_file j = p) \/
  (forall j, In j jobs -> job_file j <> p).
Proof.
  induction jobs as [|j0 jobs [(j & Hin & E)|Hno]].
  - right. intros ? [].
  - left. exists j. split; [by right|assumption].
  - destruct (decide (job_file j0 = p)) as [E|Hne].
    + left. exists j0. split; [by left|assumption].
    + right. intros j [<-|Hin]; [assumption|by apply Hno].
Qed.

(** The last round that writes a given file. *)
Lemma last_writer (jobs : list job) p :
  (exists j, In j jobs /\ job_file j = p) ->
  exists before j after,
    jobs = before ++ j :: after /\ job_file j = p /\
    (forall j', In j' after -> job_file j' <> job_file j).
Proof.
  induction jobs as [|j0 jobs IH]; intros (j & Hin & Hp); [destruct Hin|].
  destruct (writer_or_none jobs p) as [Hex|Hno].
  - destruct (IH Hex) as (before & j1 & after & -> & E1 & Hafter).
    exists (j0 :: before), j1, after. done.
  - destruct Hin as [->|Hin]; [|by destruct (Hno j Hin)].
    exists [], j, jobs. split; [reflexivity|]. split; [assumption|].
    intros j' Hj' E'. apply (Hno j' Hj'). congruence.
Qed.

(** After a run of rounds without error, a file holds what it held before
    or the snippet of one of the rounds, whose file it is. *)
Lemma jobs_loop_files jobs w w' p c :
  forM_ (run_job fset regionTag) jobs w = (w', Ok tt) ->
  files w' !! p = Some c ->
  files w !! p = Some c \/
  exists j t, In j jobs /\ job_file j = p /\ job_snippet fset regionTag t j c
              /\ tick w <= t /\ t + 7 <= tick w'.
Proof.
  intros Hrun Hc.
  destruct (jobs_loop_ok jobs w w' Hrun) as (Ht & _ & Hframe & Hlast).
  destruct (writer_or_none jobs p) as [Hex|Hno].
  - right. destruct (last_writer jobs p Hex)
      as (before & j & after & -> & Ej & Hafter).
    destruct (Hlast before j after eq_refl Hafter) as (c' & Hc' & Hf).
    rewrite Ej in Hf. rewrite Hf in Hc. injection Hc as ->.
    exists j, (tick w + 7 * length before).
    split; [apply in_or_app; right; by left|].
    rewrite Ht, List.length_app. cbn [length]. repeat split; try assumption; lia.
  - left. by rewrite <- Hframe.
Qed.

End JobLoop.

Section LoopsAsJobs.

Lemma forM_app {A} (f : A -> M unit) l1 l2 w :
  forM_ f (l1 ++ l2) w = (let* _ := forM_ f l1 in forM_ f l2) w.
Proof.
  revert w. induction l1 as [|x l1 IH]; intros w; [reflexivity|].
  cbn [app forM_]. unfold bind.
  destruct (f x w) as [w1 [[]|e]]; [|reflexivity].
  rewrite IH. reflexivity.
Qed.

Lemma forM_ext {A} (f g : A -> M unit) l w :
  (forall x w, f x w = g x w) -> forM_ f l w = forM_ g l w.
Proof.
  intros E. revert w. induction l as [|x l IH]; intros w; [reflexivity|].
  cbn [forM_]. unfold bind. rewrite E.
  destruct (g x w) as [w1 [[]|e]]; [apply IH|reflexivity].
Qed.

Lemma forM_map {A B} (f : B -> M unit) (g : A -> B) l w :
  forM_ f (map g l) w = forM_ (fun x => f (g x)) l w.
Proof.
  revert w. induction l as [|x l IH]; intros w; [reflexivity|].
  cbn [map forM_]. unfold bind.
  destruct (f (g x) w) as [w1 [[]|e]]; [apply IH|reflexivity].
Qed.

Lemma forM_flat_map {A B} (f : B -> M unit) (g : A -> list B) l w :
  forM_ f (flat_map g l) w = forM_ (fun x => forM_ f (g x)) l w.
Proof.
  revert w. induction l as [|x l IH]; intros w; [reflexivity|].
  cbn [flat_map forM_]. rewrite forM_app. unfold bind.
  destruct (forM_ f (g x) w) as [w1 [[]|e]]; [apply IH|reflexivity].
Qed.

Context `{Runtime}.
Variable fset : token_FileSet.
Variable regionTag : string.

(** [writeExamples] makes the rounds of its examples. *)
Lemma writeExamples_jobs outDir exs w :
  writeExamples outDir exs fset regionTag w
  = forM_ (run_job fset regionTag) (example_jobs outDir exs) w.
Proof.
  unfold writeExamples, example_jobs. rewrite forM_map.
  destruct exs; reflexivity.
Qed.

Lemma write_funcs_jobs dir fs w :
  write_funcs dir fset regionTag fs w
  = forM_ (run_job fset regionTag) (flat_map (func_jobs dir) fs) w.
Proof.
  unfold write_funcs. rewrite forM_flat_map. apply forM_ext.
  intros f w1. apply writeExamples_jobs.
Qed.

Lemma write_type_jobs outDir t w :
  write_type outDir fset regionTag t w
  = forM_ (run_job fset regionTag) (type_jobs outDir t) w.
Proof.
  unfold write_type, type_jobs. rewrite forM_app. unfold bind.
  rewrite writeExamples_jobs.
  destruct (forM_ _ (example_jobs _ _) w) as [w1 [[]|e]]; [|reflexivity].
  rewrite forM_app. unfold bind. rewrite write_funcs_jobs.
  destruct (forM_ _ (flat_map _ (Type_.Funcs t)) w1) as [w2 [[]|e]];
    [|reflexivity].
  apply write_funcs_jobs.
Qed.

(** The loops of [processExamples] make the rounds of the package. *)
Lemma write_package_jobs pkg outDir w :
  write_package pkg fset outDir regionTag w
  = forM_ (run_job fset regionTag) (package_jobs outDir pkg) w.
Proof.
  unfold write_package, package_jobs. rewrite forM_app. unfold bind.
  rewrite write_funcs_jobs.
  destruct (forM_ _ (flat_map _ (Package.Funcs pkg)) w) as [w1 [[]|e]];
    [|reflexivity].
  rewrite forM_flat_map. apply forM_ext. intros t w2. apply write_type_jobs.
Qed.

End LoopsAsJobs.

(* ===================================================================== *)
(** * Skipped packages and symbols without examples *)
(* ===================================================================== *)

Lemma skip_true k : k ∈ dom skip -> index_bool skip k = true.
Proof.
  intros [v Hv]%elem_of_dom. unfold index_bool. rewrite Hv.
  unfold skip in Hv. apply elem_of_list_to_map_2 in Hv.
  repeat (apply elem_of_cons in Hv as [[= _ <-]|Hv]; [reflexivity|]).
  by apply elem_of_nil in Hv.
Qed.

(** C10. For a package whose import path is in [skip], [processExamples]
    returns nil and leaves the world as it was: no file and no directory is
    made or changed; and so does [writeExamples] on an empty list of
    examples. *)
Theorem no_output_for_skipped_or_empty `{Runtime} (pkg : Package.t)
    (fset : token_FileSet) (trimPrefix outDir regionTag : string)
    (m : gmap string string) (w : World) :
  (Package.ImportPath pkg ∈ dom skip ->
   processExamples pkg fset trimPrefix outDir m w = (w, Ok tt))
  /\ writeExamples outDir [] fset regionTag w = (w, Ok tt).
Proof.
  split; [|reflexivity].
  intros Hs. unfold processExamples. by rewrite (skip_true _ Hs).
Qed.

Lemma no_output_for_skipped_or_empty_witness :
  @processExamples Sample.ast Sample.runtime
     (Package.mk "cloud.google.com/go/civil" [] []) tt
     "cloud.google.com/go" "internal/generated/snippets"
     Sample.apiShortnames Sample.w0
  = (Sample.w0, Ok tt).
Proof.
  apply (proj1 (@no_output_for_skipped_or_empty Sample.ast Sample.runtime
                  (Package.mk "cloud.google.com/go/civil" [] []) tt
                  "cloud.google.com/go" "internal/generated/snippets" ""
                  Sample.apiShortnames Sample.w0)).
  apply elem_of_dom. eexists. reflexivity.
Defined.

(* ===================================================================== *)
(** * What [writeExamples] writes *)
(* ===================================================================== *)

Section WriteExamples.
Context `{Runtime}.

Lemma example_jobs_split outDir exs before ex after :
  exs = before ++ ex :: after ->
  example_jobs outDir exs
  = map (fun e => (outDir, length exs, e)) before
    ++ (outDir, length exs, ex)
    :: map (fun e => (outDir, length exs, e)) after.
Proof. intros ->. unfold example_jobs. by rewrite List.map_app. Qed.

Lemma in_example_jobs outDir exs j :
  In j (example_jobs outDir exs) ->
  exists ex, In ex exs /\ j = (outDir, length exs, ex).
Proof. unfold example_jobs. rewrite in_map_iff. intros (ex & <- & Hin). eauto. Qed.

(** The file of an example that no later example overwrites holds its
    snippet, with the year read while it was written. *)
Lemma writeExamples_last outDir exs fset regionTag w w' before ex after :
  writeExamples outDir exs fset regionTag w = (w', Ok tt) ->
  exs = before ++ ex :: after ->
  (forall e, In e after ->
     example_file outDir (length exs) e
     <> example_file outDir (length exs) ex) ->
  exists s,
    format_Node fset (example_node ex) = Ok s /\
    files w' !! example_file outDir (length exs) ex
    = Some (snippet (year_at (tick w + 7 * length before + 2))
                    (regionTag +:+ "_" +:+ Example.Name ex) (reformat s)).
Proof.
  rewrite writeExamples_jobs. intros Hrun E Hafter.
  destruct (jobs_loop_ok fset regionTag _ w w' Hrun) as (_ & _ & _ & Hlast).
  destruct (Hlast _ _ _ (example_jobs_split outDir exs _ _ _ E))
    as (c & (s & Ef & ->) & Hf).
  - intros j' (e & <- & He)%in_map_iff. cbn [job_file]. by apply Hafter.
  - exists s. split; [exact Ef|]. rewrite List.length_map in Hf. exact Hf.
Qed.

(** A file changed by [writeExamples] holds the snippet of one of the
    examples, whose file it is, written during the call. *)
Lemma writeExamples_changed outDir exs fset regionTag w w' p c :
  writeExamples outDir exs fset regionTag w = (w', Ok tt) ->
  files w' !! p = Some c ->
  files w !! p = Some c \/
  exists ex t s,
    In ex exs /\ p = example_file outDir (length exs) ex /\
    format_Node fset (example_node ex) = Ok s /\
    tick w <= t /\ t + 7 <= tick w' /\
    c = snippet (year_at (t + 2))
                (regionTag +:+ "_" +:+ Example.Name ex) (reformat s).
Proof.
  rewrite writeExamples_jobs. intros Hrun Hc.
  destruct (jobs_loop_files fset regionTag _ w w' p c Hrun Hc)
    as [Hold|(j & t & Hj & Ej & (s & Ef & ->) & Ht1 & Ht2)]; [by left|right].
  apply in_example_jobs in Hj as (ex & Hex & ->).
  exists ex, t, s. repeat split; try assumption. by symmetry.
Qed.

(** C1. Every round of the loop of [writeExamples] that ends without error
    leaves in the file of its example the license header, the line
    [// [START tag]] and a blank line, the printed (and reformatted) source
    of the example, and the line [// [END tag]], with the same tag in both
    markers: the region tag, an underscore and the name of the example.
    When [writeExamples] returns without error, the file of every example
    still holds this text, unless a later example of the list was written
    to the same file; and every file that [writeExamples] has changed is
    the file of one of the examples and has that form. *)
Theorem writeExamples_content (outDir : string) (exs : list Example.t)
    (fset : token_FileSet) (regionTag : string) (w w' : World) :
  writeExamples outDir exs fset regionTag w = (w', Ok tt) ->
  (forall n ex w0 w1,
     writeExample outDir n fset regionTag ex w0 = (w1, Ok tt) ->
     exists s,
       format_Node fset (example_node ex) = Ok s /\
       files w1 !! example_file outDir n ex
       = Some (licenseHeader (Sprint_int (year_at (tick w0 + 2))) +:+
               ("// [START " +:+ (regionTag +:+ "_" +:+ Example.Name ex)
                  +:+ "]" +:+ NL +:+ NL) +:+
               reformat s +:+
               ("// [END " +:+ (regionTag +:+ "_" +:+ Example.Name ex)
                  +:+ "]" +:+ NL)))
  /\ (forall before ex after,
     exs = before ++ ex :: after ->
     (forall e, In e after ->
        example_file outDir (length exs) e
        <> example_file outDir (length exs) ex) ->
     exists s,
       format_Node fset (example_node ex) = Ok s /\
       files w' !! example_file outDir (length exs) ex
       = Some (licenseHeader
                 (Sprint_int (year_at (tick w + 7 * length before + 2))) +:+
               ("// [START " +:+ (regionTag +:+ "_" +:+ Example.Name ex)
                  +:+ "]" +:+ NL +:+ NL) +:+
               reformat s +:+
               ("// [END " +:+ (regionTag +:+ "_" +:+ Example.Name ex)
                  +:+ "]" +:+ NL)))
  /\ (forall p c,
        files w' !! p = Some c ->
        files w !! p = Some c \/
        exists ex y s,
          In ex exs /\ p = example_file outDir (length exs) ex /\
          format_Node fset (example_node ex) = Ok s /\
          c = licenseHeader (Sprint_int y) +:+
              ("// [START " +:+ (regionTag +:+ "_" +:+ Example.Name ex)
                 +:+ "]" +:+ NL +:+ NL) +:+
              reformat s +:+
              ("// [END " +:+ (regionTag +:+ "_" +:+ Example.Name ex)
                 +:+ "]" +:+ NL)).
Proof.
  intros Hrun. split; [|split].
  - intros n ex w0 w1 (s & Ef & ->)%writeExample_ok. exists s.
    split; [exact Ef|]. cbn [files]. apply lookup_insert_eq.
  - intros before ex after E Hafter.
    exact (writeExamples_last _ _ _ _ _ _ _ _ _ Hrun E Hafter).
  - intros p c Hc.
    destruct (writeExamples_changed _ _ _ _ _ _ p c Hrun Hc)
      as [Hold|(ex & t & s & Hex & Ep & Ef & _ & _ & ->)]; [by left|right].
    exists ex, (year_at (t + 2)), s. by repeat split.
Qed.

End WriteExamples.

Lemma writeExamples_content_witness :
  files (fst (@writeExamples Sample.ast Sample.runtime
                "out" [Sample.ex_first; Sample.ex_second] tt "r" Sample.w0))
    !! "out/first/main.go"
  = Some (snippet 2021 "r_Client_Collection_first"
            (TAB +:+ "x := 1" +:+ NL +:+ "y" +:+ NL)).
Proof.
  pose (r := @writeExamples Sample.ast Sample.runtime
               "out" [Sample.ex_first; Sample.ex_second] tt "r" Sample.w0).
  assert (E : r = (fst r, Ok tt)) by (vm_compute; reflexivity).
  destruct (proj1 (proj2 (@writeExamples_content Sample.ast Sample.runtime
                            _ _ _ _ _ _ E))
                  [] Sample.ex_first [Sample.ex_second] eq_refl)
    as (s & Es & Hf).
  - intros e [<-|[]]. vm_compute. discriminate.
  - injection Es as <-. exact Hf.
Defined.

(* ===================================================================== *)
(** * The source that [writeExamples] writes *)
(* ===================================================================== *)

Section Reformats.
Context `{Runtime}.
Import strings.

Lemma reformat_rewritten s : rewritten s (reformat s).
Proof.
  unfold rewritten.
  destruct (HasPrefix s ("{" +:+ NL) && HasSuffix s (NL +:+ "}")) eqn:G.
  - pose proof G as [G1 G2]%andb_true_iff.
    destruct (guarded_lines s G1 G2) as (ls & E & Hs).
    exists ls. split; [|split; [assumption|split; [assumption|]]].
    + pose proof (Split_no_sep s nl) as F. rewrite E in F.
      inversion F as [|? ? _ F']; subst.
      apply Forall_app in F'. tauto.
    + by apply reformat_lines.
  - unfold reformat. by rewrite G.
Qed.

(** C5. When [writeExamples] returns without error, what it has written
    between the markers of the file of an example is the source printed
    by [format.Node] for that example, rewritten: when the printed source
    starts with an opening brace and a newline and ends with a newline and
    a closing brace, its first and its last line (the braces) are dropped,
    every other line loses one leading tab if it has one, and every such
    line is ended by a newline; any other printed source is written as it
    is. This holds of the file of every example that no later example of
    the call overwrites, and of every file that the call has changed. The
    slice expression that drops the two lines is always in range, and the
    lines between the braces are rewritten one by one. *)
Theorem writeExamples_reformats (outDir : string) (exs : list Example.t)
    (fset : token_FileSet) (regionTag : string) (w w' : World) :
  writeExamples outDir exs fset regionTag w = (w', Ok tt) ->
  let file (ex : Example.t) := example_file outDir (length exs) ex in
  let tag (ex : Example.t) := regionTag +:+ "_" +:+ Example.Name ex in
  (forall before ex after,
     exs = before ++ ex :: after ->
     (forall e, In e after -> file e <> file ex) ->
     exists s body,
       format_Node fset (example_node ex) = Ok s /\
       rewritten s body /\
       files w' !! file ex
       = Some (snippet (year_at (tick w + 7 * length before + 2))
                       (tag ex) body))
  /\ (forall p c,
        files w' !! p = Some c ->
        files w !! p = Some c \/
        exists ex y s body,
          In ex exs /\ p = file ex /\
          format_Node fset (example_node ex) = Ok s /\
          rewritten s body /\
          c = snippet y (tag ex) body)
  /\ (forall s,
        HasPrefix s ("{" +:+ NL) && HasSuffix s (NL +:+ "}") = true ->
        slice_in_range 1 (length (Split s nl) - 1) (Split s nl))
  /\ (forall lines body,
        Forall (fun l => contains_byte nl l = false) lines ->
        rewritten (braced lines) body ->
        body = concat_all (map (fun l => drop_one_tab l +:+ NL) lines)).
Proof.
  intros Hrun file tag. split; [|split; [|split]].
  - intros before ex after E Hafter.
    destruct (writeExamples_last _ _ _ _ _ _ before ex after Hrun E Hafter)
      as (s & Ef & Hf).
    exists s, (reformat s). split; [exact Ef|].
    split; [apply reformat_rewritten|exact Hf].
  - intros p c Hc.
    destruct (writeExamples_changed _ _ _ _ _ _ p c Hrun Hc)
      as [Hold|(ex & t & s & Hex & Hp & Ef & _ & _ & ->)]; [by left|].
    right. exists ex, (year_at (t + 2)), s, (reformat s).
    split; [assumption|]. split; [assumption|]. split; [assumption|].
    split; [apply reformat_rewritten|reflexivity].
  - intros s [G1 G2]%andb_true_iff.
    destruct (guarded_lines s G1 G2) as (ls & E & _). rewrite E.
    unfold slice_in_range. cbn [length]. rewrite List.length_app.
    cbn [length]. lia.
  - intros lines body Hl. unfold rewritten. rewrite braced_guard.
    intros (ls & _ & E & _ & ->). rewrite Split_braced in E by assumption.
    injection E as E. apply app_inv_tail in E. by subst ls.
Qed.

End Reformats.

Lemma writeExamples_reformats_witness :
  exists s body,
    @format_Node Sample.ast Sample.runtime tt (example_node Sample.ex_first)
    = Ok s /\
    rewritten s body /\
    files (fst (@writeExamples Sample.ast Sample.runtime "out"
                  [Sample.ex_first; Sample.ex_second] tt "r" Sample.w0))
      !! @example_file Sample.ast "out" 2 Sample.ex_first
    = Some (snippet 2021 "r_Client_Collection_first" body).
Proof.
  pose (r := @writeExamples Sample.ast Sample.runtime "out"
               [Sample.ex_first; Sample.ex_second] tt "r" Sample.w0).
  assert (Hrun : r = (fst r, Ok tt)) by (vm_compute; reflexivity).
  destruct (proj1 (@writeExamples_reformats Sample.ast Sample.runtime
                     "out" [Sample.ex_first; Sample.ex_second] tt "r"
                     Sample.w0 (fst r) Hrun)
              [] Sample.ex_first [Sample.ex_second] eq_refl)
    as (s & body & Ef & Hb & Hf).
  { intros e [<-|[]]. vm_compute. discriminate. }
  exists s, body. split; [exact Ef|]. split; [exact Hb|exact Hf].
Defined.


(* ===================================================================== *)
(** * The license header *)
(* ===================================================================== *)

Section Header.
Context `{Runtime}.

Lemma header_spec w :
  header w = (with_tick w, Ok (licenseHeader (Sprint_int (year_at (tick w))))).
Proof. reflexivity. Qed.

(** C6 (amended). [header] gives the license text with the year that the
    clock shows when it is called, and it is called anew for each file.
    When [writeExamples] returns without error, the file of every example
    (that no later example overwrites) begins with the license header for
    the year read while that example was written; and if the clock shows
    one and the same year during the whole call, every file that was
    changed begins with the license header for that year. *)
Theorem writeExamples_header (outDir : string) (exs : list Example.t)
    (fset : token_FileSet) (regionTag : string) (w w' : World) :
  writeExamples outDir exs fset regionTag w = (w', Ok tt) ->
  (forall w0,
     header w0
     = (with_tick w0, Ok (licenseHeader (Sprint_int (year_at (tick w0))))))
  /\ (forall before ex after,
        exs = before ++ ex :: after ->
        (forall e, In e after ->
           example_file outDir (length exs) e
           <> example_file outDir (length exs) ex) ->
        exists rest,
          files w' !! example_file outDir (length exs) ex
          = Some (licenseHeader
                    (Sprint_int (year_at (tick w + 7 * length before + 2)))
                  +:+ rest))
  /\ (forall y,
        (forall t, tick w <= t < tick w' -> year_at t = y) ->
        forall p c,
          files w' !! p = Some c ->
          files w !! p = Some c \/
          exists rest, c = licenseHeader (Sprint_int y) +:+ rest).
Proof.
  intros Hrun. split; [exact header_spec|]. split.
  - intros before ex after E Hafter.
    destruct (writeExamples_last _ _ _ _ _ _ _ _ _ Hrun E Hafter)
      as (s & _ & Hf).
    eexists. exact Hf.
  - intros y Hy p c Hc.
    destruct (writeExamples_changed _ _ _ _ _ _ p c Hrun Hc)
      as [Hold|(ex & t & s & _ & _ & _ & Ht1 & Ht2 & ->)]; [by left|right].
    rewrite (Hy (t + 2)) by lia. unfold snippet. eexists. reflexivity.
Qed.

End Header.

Lemma licenseHeader_length v : 16 < String.length (licenseHeader v).
Proof.
  unfold licenseHeader. rewrite !length_append.
  change (String.length "// Copyright ") with 13.
  change (String.length " Google LLC") with 11. lia.
Qed.

Lemma writeExamples_header_witness :
  exists rest,
    files (fst (@writeExamples Sample.ast Sample.runtime
                  "out" [Sample.ex_first; Sample.ex_second] tt "r" Sample.w0))
      !! "out/second/main.go"
    = Some (licenseHeader "2021" +:+ rest).
Proof.
  pose (r := @writeExamples Sample.ast Sample.runtime
               "out" [Sample.ex_first; Sample.ex_second] tt "r" Sample.w0).
  assert (E : r = (fst r, Ok tt)) by (vm_compute; reflexivity).
  destruct (@writeExamples_header Sample.ast Sample.runtime
              _ _ _ _ _ _ E) as (_ & _ & Hsame).
  destruct (Hsame 2021%Z (fun _ _ => eq_refl) "out/second/main.go"
              (snippet 2021 "r_Client_Collection_second" ("f()" +:+ NL)))
    as [Hold|Hnew].
  - vm_compute. reflexivity.
  - vm_compute in Hold. discriminate Hold.
  - destruct Hnew as [rest Hrest]. exists rest.
    change (Sprint_int 2021) with "2021" in Hrest.
    rewrite <- Hrest. vm_compute. reflexivity.
Defined.

(** C6 as first stated fails: in a run that passes from one year to the
    next between two files, the two files begin with different license
    headers. *)
Lemma writeExamples_header_counterexample :
  ~ (forall (R : @Runtime Sample.ast) outDir exs fset regionTag w w',
       @writeExamples Sample.ast R outDir exs fset regionTag w = (w', Ok tt) ->
       exists y,
         forall p c,
           files w' !! p = Some c ->
           files w !! p = Some c \/
           exists rest, c = licenseHeader (Sprint_int y) +:+ rest).
Proof.
  intros C.
  pose (r := @writeExamples Sample.ast Sample.new_year_runtime
               "out" [Sample.ex_first; Sample.ex_second] tt "r" Sample.w0).
  assert (E : r = (fst r, Ok tt)) by (vm_compute; reflexivity).
  destruct (C _ _ _ _ _ _ _ E) as [y Hy].
  destruct (Hy "out/first/main.go"
              (snippet 2021 "r_Client_Collection_first"
                 (TAB +:+ "x := 1" +:+ NL +:+ "y" +:+ NL)))
    as [Hold|[rest1 E1]];
    [vm_compute; reflexivity|vm_compute in Hold; discriminate Hold|].
  destruct (Hy "out/second/main.go"
              (snippet 2022 "r_Client_Collection_second" ("f()" +:+ NL)))
    as [Hold|[rest2 E2]];
    [vm_compute; reflexivity|vm_compute in Hold; discriminate Hold|].
  pose proof (licenseHeader_length (Sprint_int y)) as L.
  pose proof (append_correct1 _ rest1 16 L) as G1.
  pose proof (append_correct1 _ rest2 16 L) as G2.
  rewrite <- E1 in G1. rewrite <- E2 in G2. rewrite G1 in G2.
  vm_compute in G2. discriminate G2.
Qed.

(* ===================================================================== *)
(** * The region tag *)
(* ===================================================================== *)

Lemma ReplaceAll_byte s old new :
  strings.ReplaceAll s old (String new "") = replace_byte old new s.
Proof.
  induction s as [|c s IH]; [reflexivity|]. cbn [strings.ReplaceAll replace_byte].
  rewrite IH. by destruct (Ascii.eqb c old).
Qed.

Section RegionTag.
Context `{Runtime}.

Lemma example_jobs_examples dir exs :
  map job_example (example_jobs dir exs) = exs.
Proof.
  unfold example_jobs. rewrite List.map_map. cbn [job_example]. apply List.map_id.
Qed.

Lemma map_flat_map {A B C} (f : B -> C) (g : A -> list B) l :
  map f (flat_map g l) = flat_map (fun x => map f (g x)) l.
Proof.
  induction l as [|x l IH]; [reflexivity|].
  cbn [flat_map]. by rewrite List.map_app, IH.
Qed.

Lemma func_jobs_examples dir fs :
  map job_example (flat_map (func_jobs dir) fs) = flat_map Func.Examples fs.
Proof.
  rewrite map_flat_map. apply flat_map_ext. intros f.
  apply example_jobs_examples.
Qed.

(** The rounds of a package are made for the examples of all its symbols,
    each once. *)
Lemma package_jobs_examples dir pkg :
  map job_example (package_jobs dir pkg) = all_examples pkg.
Proof.
  unfold package_jobs, all_examples.
  rewrite List.map_app, func_jobs_examples, map_flat_map. f_equal.
  apply flat_map_ext. intros t. unfold type_jobs.
  by rewrite !List.map_app, example_jobs_examples, !func_jobs_examples.
Qed.

Lemma find_shortname_files ip m w w1 r :
  find_shortname ip m w = (w1, r) ->
  files w1 = files w /\ dirs w1 = dirs w /\ tick w1 = tick w.
Proof.
  unfold find_shortname. destruct (m !! ip); [by intros [= <- _]|].
  unfold bind, range_keys.
  destruct (String.eqb _ ""); by intros [= <- _].
Qed.

(** C2. When [processExamples], called with the prefix
    [cloud.google.com/go] as [Generate] calls it, returns without error for
    a package that is not skipped, a shortname was found for the package,
    and the snippet of every example of every symbol of the package carries
    the tag made of the shortname, [_generated], the import path without the
    prefix [cloud.google.com/go] and with every [/] replaced by [_], an
    underscore, and the name of the example: the file of every round holds
    such a snippet (of that round, unless a later round wrote the same
    file), and every file that was changed holds one. *)
Theorem processExamples_region_tag (pkg : Package.t) (fset : token_FileSet)
    (outDir : string) (m : gmap string string) (w w' : World) :
  let ip := Package.ImportPath pkg in
  let trimmed := strings.TrimPrefix ip "cloud.google.com/go" in
  let dir := filepath.Join [outDir; trimmed] in
  index_bool skip ip = false ->
  processExamples pkg fset "cloud.google.com/go" outDir m w = (w', Ok tt) ->
  exists shortname w1,
    find_shortname ip m w = (w1, Ok shortname) /\
    let tag (ex : Example.t) :=
      shortname +:+ "_generated" +:+ replace_byte slash "_" trimmed
      +:+ "_" +:+ Example.Name ex in
    map job_example (package_jobs dir pkg) = all_examples pkg
    /\ (forall rest, ip = "cloud.google.com/go" +:+ rest -> trimmed = rest)
    /\ (forall before j after,
          package_jobs dir pkg = before ++ j :: after ->
          (forall j', In j' after -> job_file j' <> job_file j) ->
          exists y s,
            format_Node fset (example_node (job_example j)) = Ok s /\
            files w' !! job_file j
            = Some (snippet y (tag (job_example j)) (reformat s)))
    /\ (forall p c,
          files w' !! p = Some c ->
          files w !! p = Some c \/
          exists j y s,
            In j (package_jobs dir pkg) /\ p = job_file j /\
            format_Node fset (example_node (job_example j)) = Ok s /\
            c = snippet y (tag (job_example j)) (reformat s)).
Proof.
  intros ip trimmed dir Hskip. unfold processExamples. fold ip.
  rewrite Hskip. fold trimmed. fold dir.
  intros (w1 & sn & Efind & Hrun)%bind_ok.
  exists sn, w1. split; [exact Efind|]. cbv zeta.
  destruct (find_shortname_files _ _ _ _ _ Efind) as (Hfiles & _ & _).
  rewrite write_package_jobs in Hrun.
  assert (Etag : forall ex,
            regionTag_of sn trimmed +:+ "_" +:+ Example.Name ex
            = sn +:+ "_generated" +:+ replace_byte slash "_" trimmed
              +:+ "_" +:+ Example.Name ex).
  { intros ex. unfold regionTag_of.
    rewrite (ReplaceAll_byte trimmed slash "_"). by rewrite !append_assoc. }
  split; [apply package_jobs_examples|]. split; [|split].
  - intros rest E. unfold trimmed. rewrite E. apply TrimPrefix_app.
  - intros before j after E Hafter.
    destruct (jobs_loop_ok _ _ _ _ _ Hrun) as (_ & _ & _ & Hlast).
    destruct (Hlast before j after E Hafter) as (c & (s & Ef & ->) & Hf).
    exists (year_at (tick w1 + 7 * length before + 2)), s.
    split; [exact Ef|]. by rewrite <- Etag.
  - intros p c Hc.
    destruct (jobs_loop_files _ _ _ _ _ p c Hrun Hc)
      as [Hold|(j & t & Hj & Ej & (s & Ef & ->) & _)].
    + left. by rewrite <- Hfiles.
    + right. exists j, (year_at (t + 2)), s.
      repeat split; try assumption; [by symmetry|by rewrite <- Etag].
Qed.

End RegionTag.

Lemma processExamples_region_tag_witness :
  exists y body,
    files (fst (@processExamples Sample.ast Sample.runtime
                  Sample.pkg_monitoring tt "cloud.google.com/go"
                  "internal/generated/snippets" Sample.apiShortnames
                  Sample.w0))
      !! "internal/generated/snippets/monitoring/apiv3/v2/GroupClient/UpdateGroup/main.go"
    = Some (snippet y
              "monitoring_generated_monitoring_apiv3_v2_GroupClient_UpdateGroup"
              body).
Proof.
  pose (r := @processExamples Sample.ast Sample.runtime Sample.pkg_monitoring
               tt "cloud.google.com/go" "internal/generated/snippets"
               Sample.apiShortnames Sample.w0).
  assert (E : r = (fst r, Ok tt)) by (vm_compute; reflexivity).
  destruct (@processExamples_region_tag Sample.ast Sample.runtime
              Sample.pkg_monitoring tt "internal/generated/snippets"
              Sample.apiShortnames Sample.w0 (fst r) eq_refl E)
    as (sn & w1 & Efind & _ & _ & Hlast & _).
  vm_compute in Efind. injection Efind as _ <-.
  destruct (Hlast []
              ("internal/generated/snippets/monitoring/apiv3/v2/GroupClient/UpdateGroup",
               1, Sample.ex_update) [] eq_refl)
    as (y & s & _ & Hf).
  - intros j' [].
  - exists y, (reformat s). exact Hf.
Defined.

(* ===================================================================== *)
(** * Properties of [filepath.Clean] and [filepath.Join] *)
(* ===================================================================== *)

Section CleanFacts.
Import strings filepath.

Lemma is_name_spec c :
  is_name c = true <->
  c <> "" /\ c <> "." /\ c <> ".." /\ contains_byte slash c = false.
Proof.
  unfold is_name. rewrite !andb_true_iff, !negb_true_iff, !String.eqb_neq.
  tauto.
Qed.

Lemma clean_step_name r out c :
  is_name c = true -> clean_step r out c = out ++ [c].
Proof.
  intros (N1 & N2 & N3 & _)%is_name_spec. unfold clean_step.
  apply String.eqb_neq in N1, N2, N3. by rewrite N1, N2, N3.
Qed.

Lemma fold_clean_names r names acc :
  Forall (fun c => is_name c = true) names ->
  fold_left (clean_step r) names acc = acc ++ names.
Proof.
  intros F. revert acc. induction F as [|c names Hc _ IH]; intros acc.
  - by rewrite app_nil_r.
  - cbn [fold_left]. rewrite clean_step_name, IH by assumption.
    by rewrite <- app_assoc.
Qed.

Lemma last_replicate_dotdot k :
  last (replicate (S k) "..") = Some "..".
Proof. induction k as [|k IH]; [reflexivity|]. exact IH. Qed.

Lemma replicate_snoc k (x : string) :
  replicate k x ++ [x] = replicate (S k) x.
Proof. induction k as [|k IH]; [reflexivity|]. cbn. by rewrite IH. Qed.

Lemma clean_step_dotdot_only k :
  clean_step false (replicate k "..") ".." = replicate (S k) "..".
Proof.
  unfold clean_step. cbn [String.eqb Ascii.eqb Bool.eqb].
  change (String.eqb ".." "") with false.
  change (String.eqb ".." ".") with false.
  change (String.eqb ".." "..") with true. cbv iota.
  destruct k as [|k]; [reflexivity|].
  rewrite last_replicate_dotdot. change (String.eqb ".." "..") with true.
  cbv iota. apply replicate_snoc.
Qed.

Lemma fold_clean_dotdots k acc_k :
  fold_left (clean_step false) (replicate k "..") (replicate acc_k "..")
  = replicate (acc_k + k) "..".
Proof.
  revert acc_k. induction k as [|k IH]; intros acc_k.
  - by rewrite Nat.add_0_r.
  - cbn [replicate fold_left]. rewrite clean_step_dotdot_only, IH.
    f_equal. lia.
Qed.

(** Cleaning the elements of a cleaned path gives them back. *)
Lemma fold_clean_normal r out :
  normal r out -> fold_left (clean_step r) out [] = out.
Proof.
  intros (k & names & -> & Hn & Hk). rewrite fold_left_app.
  destruct r.
  - rewrite (Hk eq_refl). cbn [replicate fold_left]. by apply fold_clean_names.
  - change (@nil string) with (replicate 0 "..") at 1.
    rewrite fold_clean_dotdots. by apply fold_clean_names.
Qed.

Lemma normal_nil r : normal r [].
Proof. exists 0, []. by repeat split. Qed.

Lemma normal_snoc r out c :
  normal r out -> is_name c = true -> normal r (out ++ [c]).
Proof.
  intros (k & names & -> & Hn & Hk) Hc. exists k, (names ++ [c]).
  split; [by rewrite app_assoc|]. split; [|assumption].
  apply Forall_app. by repeat constructor.
Qed.

Lemma last_app_name (l names : list string) c :
  last (l ++ names ++ [c]) = Some c.
Proof. by rewrite app_assoc, last_snoc. Qed.

Lemma normal_step r out c :
  normal r out -> contains_byte slash c = false ->
  normal r (clean_step r out c).
Proof.
  intros Hout Hc. unfold clean_step.
  destruct (String.eqb_spec c ""); [assumption|].
  destruct (String.eqb_spec c "."); [assumption|].
  destruct (String.eqb_spec c "..") as [->|].
  - destruct Hout as (k & names & -> & Hn & Hk).
    destruct names as [|c names _] using rev_ind.
    + rewrite app_nil_r. destruct k as [|k].
      * cbn [replicate last]. destruct r; [apply normal_nil|].
        exists 1, []. by repeat split.
      * rewrite last_replicate_dotdot.
        change (String.eqb ".." "..") with true. cbv iota.
        rewrite replicate_snoc. exists (S (S k)), [].
        split; [by rewrite app_nil_r|]. split; [constructor|].
        intros Hr. specialize (Hk Hr). discriminate Hk.
    + rewrite last_app_name.
      apply Forall_app in Hn as [Hn Hc']. inversion Hc' as [|? ? Hcn _]; subst.
      pose proof Hcn as (_ & _ & Hdd & _)%is_name_spec.
      apply String.eqb_neq in Hdd. rewrite Hdd.
      rewrite app_assoc, removelast_last. exists k, names. by repeat split.
  - apply normal_snoc; [assumption|]. by apply is_name_spec.
Qed.

(** The elements that [Clean] keeps are normal. *)
Lemma fold_clean_is_normal r comps acc :
  normal r acc -> Forall (fun c => contains_byte slash c = false) comps ->
  normal r (fold_left (clean_step r) comps acc).
Proof.
  intros Hacc F. revert acc Hacc.
  induction F as [|c comps Hc _ IH]; intros acc Hacc; [assumption|].
  cbn [fold_left]. apply IH. by apply normal_step.
Qed.

Lemma Clean_show p :
  Clean p = show_path (HasPrefix p "/")
              (fold_left (clean_step (HasPrefix p "/")) (Split p slash) []).
Proof. reflexivity. Qed.

Lemma is_name_no_slash c : is_name c = true -> contains_byte slash c = false.
Proof. by intros (_ & _ & _ & ?)%is_name_spec. Qed.

Lemma normal_no_slash r out :
  normal r out -> Forall (fun c => contains_byte slash c = false) out.
Proof.
  intros (k & names & -> & Hn & _). apply Forall_app. split.
  - clear. induction k; by constructor.
  - eapply Forall_impl; [exact Hn|]. apply is_name_no_slash.
Qed.

Lemma normal_nonempty r out : normal r out -> Forall (fun c => c <> "") out.
Proof.
  intros (k & names & -> & Hn & _). apply Forall_app. split.
  - clear. induction k; by constructor.
  - eapply Forall_impl; [exact Hn|]. by intros c (? & _)%is_name_spec.
Qed.

Lemma Split_Join out :
  out <> [] -> Forall (fun c => contains_byte slash c = false) out ->
  Split (strings.Join out "/") slash = out.
Proof.
  intros Hne F. induction F as [|a out Ha F IH]; [done|]. clear Hne.
  destruct out as [|b rest].
  - by apply Split_without_sep.
  - change (strings.Join (a :: b :: rest) "/")
      with (a +:+ String slash (strings.Join (b :: rest) "/")).
    rewrite Split_app_sep, IH, Split_without_sep by done. reflexivity.
Qed.

Lemma HasPrefix_slash s :
  HasPrefix s "/"
  = match s with String c _ => Ascii.eqb c slash | EmptyString => false end.
Proof.
  destruct s as [|c s]; [reflexivity|].
  unfold HasPrefix, slice_to. cbn [String.length Nat.leb substring andb].
  replace (substring 0 0 s) with "" by (by destruct s).
  cbn [String.eqb]. unfold slash. destruct (Ascii.eqb c "/"); reflexivity.
Qed.

Lemma HasPrefix_slash_app p t :
  p <> "" -> HasPrefix (p +:+ t) "/" = HasPrefix p "/".
Proof. intros Hp. rewrite !HasPrefix_slash. by destruct p. Qed.

Lemma Join_cons_app a rest sep :
  exists t, strings.Join (a :: rest) sep = a +:+ t.
Proof.
  destruct rest as [|b rest].
  - exists "". by rewrite append_nil_r.
  - eexists. reflexivity.
Qed.

Lemma not_rooted_no_slash c t :
  c <> "" -> contains_byte slash c = false -> HasPrefix (c +:+ t) "/" = false.
Proof.
  intros Hne Hc. rewrite HasPrefix_slash_app, HasPrefix_slash by assumption.
  destruct c as [|a c]; [done|]. cbn [contains_byte] in Hc.
  by apply orb_false_iff in Hc as [-> _].
Qed.

Lemma append_nonempty a t : a <> "" -> a +:+ t <> "".
Proof. by destruct a. Qed.

(** A cleaned path reads back as the elements it was made of. *)
Lemma show_path_parse r out :
  normal r out ->
  show_path r out <> "" /\
  HasPrefix (show_path r out) "/" = r /\
  fold_left (clean_step r) (Split (show_path r out) slash) [] = out.
Proof.
  intros Hn. pose proof (normal_no_slash r out Hn) as Hs.
  pose proof (normal_nonempty r out Hn) as Hne.
  pose proof (fold_clean_normal r out Hn) as Hfold.
  unfold show_path. destruct out as [|a rest].
  - destruct r; by repeat split.
  - inversion Hs as [|? ? Hsa _]; subst. inversion Hne as [|? ? Hnea _]; subst.
    destruct (Join_cons_app a rest "/") as [t Et].
    assert (Hbody : strings.Join (a :: rest) "/" <> "").
    { rewrite Et. by apply append_nonempty. }
    destruct r.
    + split; [done|]. split; [by apply HasPrefix_spec; eexists|].
      change ("/" +:+ ?b) with ("" +:+ String slash b).
      rewrite Split_app_sep, Split_Join by done. exact Hfold.
    + apply String.eqb_neq in Hbody as Hb. rewrite Hb.
      split; [assumption|]. split.
      * rewrite Et. by apply not_rooted_no_slash.
      * by rewrite Split_Join.
Qed.

(** Distinct lists of elements make distinct cleaned paths. *)
Lemma show_path_inj r out1 out2 :
  normal r out1 -> normal r out2 ->
  show_path r out1 = show_path r out2 -> out1 = out2.
Proof.
  intros H1 H2 E.
  destruct (show_path_parse r out1 H1) as (_ & _ & <-).
  destruct (show_path_parse r out2 H2) as (_ & _ & <-).
  by rewrite E.
Qed.

Lemma clean_step_element r out c :
  c = "" \/ is_name c = true -> clean_step r out c = out ++ element_of c.
Proof.
  unfold element_of. intros [->|Hc].
  - by rewrite app_nil_r.
  - rewrite clean_step_name by assumption.
    apply is_name_spec in Hc as (Hne%String.eqb_neq & _). by rewrite Hne.
Qed.

Lemma normal_element r out c :
  normal r out -> c = "" \/ is_name c = true -> normal r (out ++ element_of c).
Proof.
  unfold element_of. intros Hn [->|Hc].
  - by rewrite app_nil_r.
  - pose proof Hc as (Hne%String.eqb_neq & _)%is_name_spec. rewrite Hne.
    by apply normal_snoc.
Qed.

Lemma Split_element c :
  c = "" \/ is_name c = true -> Split c slash = [c].
Proof.
  intros [->|Hc]; [reflexivity|]. by apply Split_without_sep, is_name_no_slash.
Qed.

(** Cleaning a non-empty path followed by a separator and a name (or
    nothing) adds the name to the elements of the path. *)
Lemma Clean_app_element p c :
  p <> "" -> c = "" \/ is_name c = true ->
  let r := HasPrefix p "/" in
  Clean (p +:+ "/" +:+ c)
  = show_path r (fold_left (clean_step r) (Split p slash) [] ++ element_of c).
Proof.
  intros Hp Hc r. rewrite Clean_show.
  rewrite HasPrefix_slash_app by assumption. fold r.
  change (p +:+ "/" +:+ c) with (p +:+ String slash c).
  rewrite Split_app_sep, (Split_element c Hc), fold_left_app.
  cbn [fold_left]. by rewrite clean_step_element.
Qed.

Lemma Clean_show_element r out c :
  normal r out -> c = "" \/ is_name c = true ->
  Clean (show_path r out +:+ "/" +:+ c) = show_path r (out ++ element_of c).
Proof.
  intros Hn Hc. destruct (show_path_parse r out Hn) as (Hne & Hr & Hfold).
  rewrite Clean_app_element by assumption. cbv zeta. by rewrite Hr, Hfold.
Qed.

End CleanFacts.

Section JoinFacts.
Import strings filepath.

Lemma path_elements_normal p :
  normal (fst (path_elements p)) (snd (path_elements p)).
Proof.
  unfold path_elements. destruct (String.eqb p ""); cbn [fst snd].
  - apply normal_nil.
  - apply fold_clean_is_normal; [apply normal_nil|apply Split_no_sep].
Qed.

Lemma main_go_name : is_name "main.go" = true.
Proof. reflexivity. Qed.

Lemma Join_show_main r out :
  normal r out -> out <> [] \/ r = true ->
  filepath.Join [show_path r out; "main.go"] = show_path r (out ++ ["main.go"]).
Proof.
  intros Hn _. destruct (show_path_parse r out Hn) as (Hne & _ & _).
  cbn [filepath.Join]. apply String.eqb_neq in Hne as ->.
  change (strings.Join [show_path r out; "main.go"] "/")
    with (show_path r out +:+ "/" +:+ "main.go").
  by rewrite Clean_show_element by (try assumption; by right).
Qed.

(** The file of an example of a symbol with several examples, by the
    elements of the directory of the symbol, the suffix and [main.go]. *)
Lemma Join_suffix_main outDir suf :
  suf = "" \/ is_name suf = true ->
  filepath.Join [filepath.Join [outDir; suf]; "main.go"]
  = show_path (fst (path_elements outDir))
              (snd (path_elements outDir) ++ element_of suf ++ ["main.go"]).
Proof.
  intros Hs. pose proof (path_elements_normal outDir) as Hn.
  unfold path_elements in *. destruct (String.eqb_spec outDir "") as [->|Hne].
  - cbn [fst snd app] in *. destruct Hs as [->|Hs]; [reflexivity|].
    pose proof Hs as (Hsne & _ & _ & Hslash)%is_name_spec.
    assert (E : filepath.Join [""; suf] = show_path false [suf]).
    { cbn [filepath.Join String.eqb].
      rewrite (proj2 (String.eqb_neq suf "") Hsne).
      change (strings.Join [suf] "/") with suf. rewrite Clean_show.
      replace (HasPrefix suf "/") with false.
      2:{ symmetry. rewrite <- (append_nil_r suf).
          by apply not_rooted_no_slash. }
      rewrite Split_without_sep by assumption. cbn [fold_left].
      by rewrite clean_step_name. }
    rewrite E. unfold element_of. rewrite (proj2 (String.eqb_neq suf "") Hsne).
    apply (Join_show_main false [suf]); [|by left].
    apply (normal_snoc false [] suf (normal_nil _) Hs).
  - cbn [fst snd] in *.
    assert (E : filepath.Join [outDir; suf]
                = show_path (HasPrefix outDir "/")
                    (fold_left (clean_step (HasPrefix outDir "/"))
                               (Split outDir slash) [] ++ element_of suf)).
    { cbn [filepath.Join]. apply String.eqb_neq in Hne as Hb. rewrite Hb.
      change (strings.Join [outDir; suf] "/") with (outDir +:+ "/" +:+ suf).
      by apply Clean_app_element. }
    rewrite E. pose proof (normal_element _ _ suf Hn Hs) as Hn'.
    destruct (show_path_parse _ _ Hn') as (Hd & _ & _).
    cbn [filepath.Join]. apply String.eqb_neq in Hd as ->.
    change (strings.Join [show_path ?r ?o; "main.go"] "/")
      with (show_path r o +:+ "/" +:+ "main.go").
    rewrite Clean_show_element by (try assumption; by right).
    by rewrite <- app_assoc.
Qed.

Lemma element_of_inj a b :
  a = "" \/ is_name a = true -> b = "" \/ is_name b = true ->
  element_of a = element_of b -> a = b.
Proof.
  unfold element_of.
  destruct (String.eqb_spec a ""), (String.eqb_spec b ""); congruence.
Qed.

(** Different suffixes give different files. *)
Lemma Join_suffix_main_inj outDir suf1 suf2 :
  suf1 = "" \/ is_name suf1 = true -> suf2 = "" \/ is_name suf2 = true ->
  filepath.Join [filepath.Join [outDir; suf1]; "main.go"]
  = filepath.Join [filepath.Join [outDir; suf2]; "main.go"] ->
  suf1 = suf2.
Proof.
  intros H1 H2. rewrite !Join_suffix_main by assumption.
  pose proof (path_elements_normal outDir) as Hn.
  intros E. apply show_path_inj in E.
  - apply app_inv_head, app_inv_tail in E. by apply element_of_inj.
  - rewrite app_assoc. apply normal_snoc; [|reflexivity].
    by apply normal_element.
  - rewrite app_assoc. apply normal_snoc; [|reflexivity].
    by apply normal_element.
Qed.

End JoinFacts.

(* ===================================================================== *)
(** * Where the examples of a package are written *)
(* ===================================================================== *)

Section Paths.
Context `{Runtime}.

(** The rounds made for a symbol are among those of its package. *)
Lemma in_func_jobs d fs (f : Func.t) ex :
  In f fs -> In ex (Func.Examples f) ->
  In (filepath.Join [d; Func.Name f], length (Func.Examples f), ex)
     (flat_map (func_jobs d) fs).
Proof.
  intros Hf Hex. apply in_flat_map. exists f. split; [assumption|].
  unfold func_jobs, example_jobs. by apply in_map.
Qed.

Lemma package_jobs_func dir pkg (f : Func.t) ex :
  In f (Package.Funcs pkg) -> In ex (Func.Examples f) ->
  In (filepath.Join [dir; Func.Name f], length (Func.Examples f), ex)
     (package_jobs dir pkg).
Proof.
  intros Hf Hex. apply in_or_app. left. by apply in_func_jobs.
Qed.

Lemma package_jobs_type dir pkg (t : Type_.t) :
  In t (Package.Types pkg) ->
  let tdir := filepath.Join [dir; Type_.Name t] in
  (forall ex, In ex (Type_.Examples t) ->
     In (tdir, length (Type_.Examples t), ex) (package_jobs dir pkg))
  /\ (forall f ex, In f (Type_.Funcs t) -> In ex (Func.Examples f) ->
        In (filepath.Join [tdir; Func.Name f], length (Func.Examples f), ex)
           (package_jobs dir pkg))
  /\ (forall f ex, In f (Type_.Methods t) -> In ex (Func.Examples f) ->
        In (filepath.Join [tdir; Func.Name f], length (Func.Examples f), ex)
           (package_jobs dir pkg)).
Proof.
  intros Ht tdir.
  assert (Hin : forall j, In j (type_jobs dir t) -> In j (package_jobs dir pkg)).
  { intros j Hj. apply in_or_app. right. apply in_flat_map. eauto. }
  unfold type_jobs in Hin. fold tdir in Hin. split; [|split].
  - intros ex Hex. apply Hin, in_or_app. left.
    unfold example_jobs. by apply in_map.
  - intros f ex Hf Hex. apply Hin, in_or_app. right. apply in_or_app. left.
    by apply in_func_jobs.
  - intros f ex Hf Hex. apply Hin, in_or_app. right. apply in_or_app. right.
    by apply in_func_jobs.
Qed.

Lemma job_file_cases symDir n (ex : Example.t) :
  job_file (symDir, n, ex)
  = if (1 <? n)%nat
    then filepath.Join [filepath.Join [symDir; Example.Suffix ex]; "main.go"]
    else filepath.Join [symDir; "main.go"].
Proof.
  unfold job_file, example_file, example_dir. by destruct (1 <? n)%nat.
Qed.

(** After the rounds of a package have run without error, the file of a
    round holds the snippet of an example of the package written there:
    the one of that round, when no other example is written to that file. *)
Lemma round_written fset regionTag dir pkg w w' j :
  forM_ (run_job fset regionTag) (package_jobs dir pkg) w = (w', Ok tt) ->
  In j (package_jobs dir pkg) ->
  (exists j' y s,
      In j' (package_jobs dir pkg) /\ job_file j' = job_file j /\
      In (job_example j') (all_examples pkg) /\
      format_Node fset (example_node (job_example j')) = Ok s /\
      files w' !! job_file j
      = Some (snippet y (regionTag +:+ "_" +:+ Example.Name (job_example j'))
                      (reformat s)))
  /\ ((forall j', In j' (package_jobs dir pkg) ->
                  job_file j' = job_file j -> job_example j' = job_example j) ->
      exists y s,
        format_Node fset (example_node (job_example j)) = Ok s /\
        files w' !! job_file j
        = Some (snippet y (regionTag +:+ "_" +:+ Example.Name (job_example j))
                        (reformat s))).
Proof.
  intros Hrun Hj.
  destruct (jobs_loop_ok fset regionTag _ w w' Hrun) as (_ & _ & _ & Hl).
  destruct (last_writer (package_jobs dir pkg) (job_file j))
    as (before & j' & after & E & Ej & Hafter); [by exists j|].
  destruct (Hl before j' after E Hafter) as (c & (s & Ef & ->) & Hf).
  assert (Hj' : In j' (package_jobs dir pkg)).
  { rewrite E. apply in_or_app. right. by left. }
  rewrite Ej in Hf. split.
  - exists j', (year_at (tick w + 7 * length before + 2)), s.
    split; [assumption|]. split; [assumption|]. split; [|by split].
    rewrite <- (package_jobs_examples dir pkg). by apply in_map.
  - intros Huniq. rewrite (Huniq j' Hj' Ej) in Ef, Hf. eauto.
Qed.

(** C4. When [processExamples] returns without error for a package that
    is not skipped, every example of every symbol of the package is
    written: an example of a function to the directory named after the
    function in the directory of the package, an example of a type to the
    directory named after the type, and an example of a constructor or of
    a method of a type to the directory named after it in the directory of
    the type. In the directory of its symbol, the example is written to
    [main.go] when it is the only example of the symbol, and to [main.go]
    in the directory named by its suffix when the symbol has more than one
    example. After the run that file holds the snippet of an example of
    the package whose round writes to that file; it is the snippet of the
    example itself when no other example is written to the same file. And
    for two examples of a symbol whose suffixes are different names (or
    one of them is empty), these files are different. *)
Theorem processExamples_paths (pkg : Package.t) (fset : token_FileSet)
    (trimPrefix outDir : string) (m : gmap string string) (w w' : World) :
  let ip := Package.ImportPath pkg in
  let dir := filepath.Join [outDir; strings.TrimPrefix ip trimPrefix] in
  index_bool skip ip = false ->
  processExamples pkg fset trimPrefix outDir m w = (w', Ok tt) ->
  let file (symDir : string) (exs : list Example.t) (ex : Example.t) :=
    if (1 <? length exs)%nat
    then filepath.Join [filepath.Join [symDir; Example.Suffix ex]; "main.go"]
    else filepath.Join [symDir; "main.go"] in
  exists regionTag,
    let holds (p : string) (ex : Example.t) :=
      exists y s,
        format_Node fset (example_node ex) = Ok s /\
        files w' !! p
        = Some (snippet y (regionTag +:+ "_" +:+ Example.Name ex)
                        (reformat s)) in
    let written (symDir : string) (exs : list Example.t) :=
      forall ex, In ex exs ->
        (exists j, In j (package_jobs dir pkg) /\
                   job_file j = file symDir exs ex /\
                   In (job_example j) (all_examples pkg) /\
                   holds (file symDir exs ex) (job_example j))
        /\ ((forall j, In j (package_jobs dir pkg) ->
                       job_file j = file symDir exs ex ->
                       job_example j = ex) ->
            holds (file symDir exs ex) ex) in
    (forall f, In f (Package.Funcs pkg) ->
       written (filepath.Join [dir; Func.Name f]) (Func.Examples f))
    /\ (forall t, In t (Package.Types pkg) ->
          let tdir := filepath.Join [dir; Type_.Name t] in
          written tdir (Type_.Examples t)
          /\ (forall f, In f (Type_.Funcs t) ->
                written (filepath.Join [tdir; Func.Name f])
                        (Func.Examples f))
          /\ (forall f, In f (Type_.Methods t) ->
                written (filepath.Join [tdir; Func.Name f])
                        (Func.Examples f)))
    /\ (forall symDir exs ex1 ex2,
          (1 < length exs)%nat ->
          suffix_ok ex1 = true -> suffix_ok ex2 = true ->
          Example.Suffix ex1 <> Example.Suffix ex2 ->
          file symDir exs ex1 <> file symDir exs ex2).
Proof.
  intros ip dir Hskip Hrun file.
  unfold processExamples in Hrun. fold ip in Hrun. rewrite Hskip in Hrun.
  fold dir in Hrun. unfold bind in Hrun.
  destruct (find_shortname ip m w) as [w1 [sn|e]]; [|discriminate].
  rewrite write_package_jobs in Hrun.
  exists (regionTag_of sn (strings.TrimPrefix ip trimPrefix)).
  intros holds written.
  assert (Hw : forall symDir exs,
             (forall ex, In ex exs ->
                         In (symDir, length exs, ex) (package_jobs dir pkg)) ->
             written symDir exs).
  { intros symDir exs Hin ex Hex.
    destruct (round_written _ _ _ _ _ _ _ Hrun (Hin ex Hex)) as [H1 H2].
    rewrite job_file_cases in H1, H2. fold (file symDir exs ex) in H1, H2.
    split.
    - destruct H1 as (j' & y & s & Hj' & Ej' & Hex' & Ef & Hf).
      exists j'. split; [assumption|]. split; [assumption|].
      split; [assumption|]. exists y, s. split; assumption.
    - intros Huniq. apply H2. intros j' Hj' Ej. by apply Huniq. }
  split; [|split].
  - intros f Hf. apply Hw. intros ex Hex. by apply package_jobs_func.
  - intros t Ht tdir.
    destruct (package_jobs_type dir pkg t Ht) as (H1 & H2 & H3).
    split; [by apply Hw|]. split.
    + intros f Hf. apply Hw. intros ex Hex. by apply H2.
    + intros f Hf. apply Hw. intros ex Hex. by apply H3.
  - intros symDir exs ex1 ex2 Hn H1 H2 Hne. unfold file.
    apply Nat.ltb_lt in Hn as ->. intros E. apply Hne.
    apply (Join_suffix_main_inj symDir); [| |exact E].
    + unfold suffix_ok in H1. apply orb_true_iff in H1 as [H1|H1];
        [left; by apply String.eqb_eq|by right].
    + unfold suffix_ok in H2. apply orb_true_iff in H2 as [H2|H2];
        [left; by apply String.eqb_eq|by right].
Qed.

End Paths.

Lemma processExamples_paths_witness :
  exists regionTag y s,
    files (fst (@processExamples Sample.ast Sample.runtime
                  Sample.pkg_monitoring tt "cloud.google.com/go" "out"
                  Sample.apiShortnames Sample.w0))
      !! filepath.Join
           [filepath.Join
              [filepath.Join
                 [filepath.Join
                    ["out";
                     strings.TrimPrefix
                       (Package.ImportPath Sample.pkg_monitoring)
                       "cloud.google.com/go"];
                  "GroupClient"];
               "UpdateGroup"];
            "main.go"]
    = Some (snippet y (regionTag +:+ "_" +:+ "GroupClient_UpdateGroup")
                    (reformat s)).
Proof.
  pose (r := @processExamples Sample.ast Sample.runtime
               Sample.pkg_monitoring tt "cloud.google.com/go" "out"
               Sample.apiShortnames Sample.w0).
  assert (Hrun : r = (fst r, Ok tt)) by (vm_compute; reflexivity).
  destruct (@processExamples_paths Sample.ast Sample.runtime
              Sample.pkg_monitoring tt "cloud.google.com/go" "out"
              Sample.apiShortnames Sample.w0 (fst r) eq_refl Hrun)
    as (regionTag & _ & Htypes & _).
  destruct (Htypes (Type_.mk "GroupClient" [] []
                      [Func.mk "UpdateGroup" [Sample.ex_update]]))
    as (_ & _ & Hmethods); [by left|].
  destruct (Hmethods (Func.mk "UpdateGroup" [Sample.ex_update])
              ltac:(by left) Sample.ex_update ltac:(by left))
    as [_ Hown].
  destruct Hown as (y & s & _ & Hf).
  { intros j [<-|[]] _. reflexivity. }
  exists regionTag, y, s. exact Hf.
Defined.

(* ===================================================================== *)
(** * [Generate]: the errors of the packages *)
(* ===================================================================== *)

Section Aggregation.
Context `{Runtime} `{!Toolchain}.
Variables (trimPrefix outDir : string) (m : gmap string string).

Lemma run_all_app pis1 pis2 w :
  run_all trimPrefix outDir m (pis1 ++ pis2) w
  = let (w1, errs1) := run_all trimPrefix outDir m pis1 w in
    let (w2, errs2) := run_all trimPrefix outDir m pis2 w1 in
    (w2, errs1 ++ errs2).
Proof.
  revert w. induction pis1 as [|pi pis1 IH]; intros w.
  - cbn [app run_all]. by destruct (run_all _ _ _ pis2 w).
  - cbn [app run_all].
    destruct (processExamples _ _ _ _ _ w) as [w1 r]. rewrite IH.
    destruct (run_all _ _ _ pis1 w1) as [w2 errs1].
    destruct (run_all _ _ _ pis2 w2) as [w3 errs2].
    by destruct r.
Qed.

(** The loop over the packages of a module attempts each package once, in
    order, and adds the errors to those it was given. *)
Lemma process_packages_run_all pis errs w :
  process_packages pis trimPrefix outDir m errs w
  = let (w', errs') := run_all trimPrefix outDir m pis w in
    (w', errs ++ errs').
Proof.
  revert errs w. induction pis as [|pi pis IH]; intros errs w.
  - cbn [process_packages run_all]. by rewrite app_nil_r.
  - cbn [process_packages run_all].
    destruct (processExamples _ _ _ _ _ w) as [w1 [[]|err]]; rewrite IH;
      destruct (run_all _ _ _ pis w1) as [w2 errs2]; [reflexivity|].
    by rewrite <- app_assoc.
Qed.

(** When every module loads, the loop over the modules attempts every
    package of every module once. *)
Lemma process_dirs_run_all dirs pkgss errs w :
  loads_from trimPrefix outDir m dirs w pkgss ->
  process_dirs dirs trimPrefix outDir m errs w
  = let (w', errs') := run_all trimPrefix outDir m (concat pkgss) w in
    (w', Ok (errs ++ errs')).
Proof.
  intros Hl. revert errs.
  induction Hl as [w|dir dirs w pis pkgss Hload _ IH]; intros errs.
  - cbn [process_dirs concat run_all]. by rewrite app_nil_r.
  - cbn [process_dirs concat]. rewrite Hload, process_packages_run_all.
    rewrite run_all_app.
    destruct (run_all _ _ _ pis w) as [w1 errs1]. cbn [fst] in IH.
    cbv beta iota. rewrite IH.
    destruct (run_all _ _ _ _ w1) as [w2 errs2].
    by rewrite app_assoc.
Qed.

(** The loop over the modules stops at the first module that does not
    load, and returns the error of the load alone. *)
Lemma process_dirs_load_error dirs1 dir dirs2 pkgss errs err w :
  loads_from trimPrefix outDir m dirs1 w pkgss ->
  pkgload_Load "./..." dir
    (fst (run_all trimPrefix outDir m (concat pkgss) w)) = Fail err ->
  process_dirs (dirs1 ++ dir :: dirs2) trimPrefix outDir m errs w
  = (fst (run_all trimPrefix outDir m (concat pkgss) w),
     Fail (Errorf "failed to load packages: " (Error err))).
Proof.
  intros Hl. revert errs.
  induction Hl as [w|d dirs w pis pkgss Hload _ IH]; intros errs Herr.
  - cbn [app process_dirs concat run_all fst] in *. by rewrite Herr.
  - cbn [app process_dirs concat]. rewrite Hload, process_packages_run_all.
    cbn [concat] in Herr. rewrite run_all_app in Herr.
    rewrite run_all_app.
    destruct (run_all _ _ _ pis w) as [w1 errs1]. cbn [fst] in IH.
    cbv beta iota in *.
    destruct (run_all _ _ _ _ w1) as [w2 errs2] eqn:E2.
    cbn [fst] in *. by rewrite IH.
Qed.

End Aggregation.

Section GenerateErrors.
Context `{Runtime} `{!Toolchain} `{!FileTree}.

(** C7 (amended). As long as the packages of every module load, a failure
    of [processExamples] does not stop [Generate]: every package of every
    module is attempted once, in order, whatever the fate of the packages
    before it, and the errors are collected; if there is one, [Generate]
    logs them all and ends the process, otherwise it runs [goimports]
    (when there is a module) and returns. The loop over the packages of a
    module never stops early. But at the first module whose packages do not
    load, [Generate] returns the error of the load alone: the modules after
    it are not attempted and the errors collected so far are dropped. *)
Theorem Generate_aggregates (rootDir outDir : string)
    (m : gmap string string) (w : World) :
  let root := if String.eqb rootDir "" then "." else rootDir in
  let out :=
    if String.eqb outDir "" then "internal/generated/snippets" else outDir in
  let trim := "cloud.google.com/go" in
  let dirs := find_modules root w in
  let w1 := fst (log_Printf (LogProcessing (length dirs) dirs) w) in
  (forall pkgss,
     loads_from trim out m dirs w1 pkgss ->
     let w2 := fst (run_all trim out m (concat pkgss) w1) in
     let errs := snd (run_all trim out m (concat pkgss) w1) in
     Generate rootDir outDir m w
     = if (0 <? length errs)%nat
       then (fst (log_Printf (LogFatal errs) w2), Exits 1)
       else if (0 <? length dirs)%nat
            then match goimports_Run out w2 with
                 | (w3, Fail err) =>
                     (w3, Returns (Fail (Errorf "failed to run goimports: "
                                                (Error err))))
                 | (w3, Ok _) => (w3, Returns (Ok tt))
                 end
            else (w2, Returns (Ok tt)))
  /\ (forall pis errs w0,
        process_packages pis trim out m errs w0
        = (fst (run_all trim out m pis w0),
           errs ++ snd (run_all trim out m pis w0)))
  /\ (forall dirs1 dir dirs2 pkgss err,
        dirs = dirs1 ++ dir :: dirs2 ->
        loads_from trim out m dirs1 w1 pkgss ->
        pkgload_Load "./..." dir
          (fst (run_all trim out m (concat pkgss) w1)) = Fail err ->
        Generate rootDir outDir m w
        = (fst (run_all trim out m (concat pkgss) w1),
           Returns (Fail (Errorf "failed to load packages: " (Error err))))).
Proof.
  intros root out trim dirs w1. split; [|split].
  - intros pkgss Hl w2 errs. subst w2 errs.
    unfold Generate, generate_modules. fold root out dirs trim.
    unfold w1, log_Printf in *. cbn [fst] in *. cbv beta iota.
    rewrite (process_dirs_run_all _ _ _ _ _ [] _ Hl).
    destruct (run_all trim out m _ _) as [w2 errs].
    reflexivity.
  - intros pis errs w0. rewrite process_packages_run_all.
    by destruct (run_all trim out m pis w0).
  - intros dirs1 dir dirs2 pkgss err Ed Hl Herr.
    unfold Generate, generate_modules. fold root out dirs trim.
    unfold w1, log_Printf in *. cbn [fst] in *. cbv beta iota.
    pose proof (process_dirs_load_error _ _ _ _ dir dirs2 _ [] _ _ Hl Herr)
      as X.
    rewrite <- Ed in X. by rewrite X.
Qed.

End GenerateErrors.

Lemma Generate_aggregates_witness :
  snd (@Generate Sample.ast Sample.runtime Sample.toolchain
         (Sample.file_tree Sample.tree_ac) "" "" Sample.apiShortnames
         Sample.w0)
  = Exits 1
  /\ @Generate Sample.ast Sample.runtime Sample.toolchain
       (Sample.file_tree Sample.tree_abc) "" "" Sample.apiShortnames
       Sample.w0
     = (mkWorld ∅ ∅ [LogProcessing 3 ["a"; "b"; "c"]] 0,
        Returns (Fail (Err "failed to load packages: no Go files"))).
Proof.
  split.
  - destruct (@Generate_aggregates Sample.ast Sample.runtime Sample.toolchain
                (Sample.file_tree Sample.tree_ac) "" ""
                Sample.apiShortnames Sample.w0) as (Hall & _ & _).
    rewrite (Hall [[Sample.info_other]; [Sample.info_monitoring]]).
    + vm_compute. reflexivity.
    + change (@find_modules (Sample.file_tree Sample.tree_ac) "." Sample.w0)
        with ["a"; "c"].
      apply loads_cons; [reflexivity|].
      apply loads_cons; [reflexivity|]. apply loads_nil.
  - destruct (@Generate_aggregates Sample.ast Sample.runtime Sample.toolchain
                (Sample.file_tree Sample.tree_abc) "" ""
                Sample.apiShortnames Sample.w0) as (_ & _ & Hstop).
    rewrite (Hstop ["a"] "b" ["c"] [[Sample.info_other]] (Err "no Go files")).
    + vm_compute. reflexivity.
    + reflexivity.
    + change (length (@find_modules (Sample.file_tree Sample.tree_abc)
                        "." Sample.w0)) with 3.
      apply loads_cons; [reflexivity|]. apply loads_nil.
    + reflexivity.
Defined.

(** C7 as first stated fails: with three modules of which the first has a
    package for which [processExamples] fails, the second does not load
    and the third has a package with an example, [Generate] stops at the
    second module; the package of the third module is not attempted. *)
Lemma Generate_aggregates_counterexample :
  ~ (forall (T : @Toolchain Sample.ast) (F : FileTree)
            (pkgs : string -> list (@Info.t Sample.ast)) (w : World),
       (forall dir w',
          @pkgload_Load Sample.ast T "./..." dir w' = Ok (pkgs dir) \/
          (pkgs dir = [] /\
           exists err, @pkgload_Load Sample.ast T "./..." dir w' = Fail err))
       ->
       let dirs := @find_modules F "." w in
       let w1 := fst (log_Printf (LogProcessing (length dirs) dirs) w) in
       files (fst (@Generate Sample.ast Sample.runtime T F "" ""
                     Sample.apiShortnames w))
       = files (fst (@run_all Sample.ast Sample.runtime
                       "cloud.google.com/go" "internal/generated/snippets"
                       Sample.apiShortnames (flat_map pkgs dirs) w1))).
Proof.
  intros C.
  specialize (C Sample.toolchain (Sample.file_tree Sample.tree_abc)
                Sample.loadable Sample.w0).
  assert (Hload : forall dir (w' : World),
            @pkgload_Load _ Sample.toolchain "./..." dir w'
            = Ok (Sample.loadable dir) \/
            (Sample.loadable dir = [] /\
             exists err,
               @pkgload_Load _ Sample.toolchain "./..." dir w' = Fail err)).
  { intros dir w'. unfold Sample.loadable. cbn [pkgload_Load Sample.toolchain].
    destruct (String.eqb dir "a"); [by left|].
    destruct (String.eqb dir "b") eqn:Eb.
    - right. apply String.eqb_eq in Eb as ->. split; [reflexivity|]. eauto.
    - destruct (String.eqb dir "c"); by left. }
  specialize (C Hload).
  apply (f_equal (fun fs : gmap string string =>
    fs !! "internal/generated/snippets/monitoring/apiv3/v2/GroupClient/UpdateGroup/main.go"))
    in C.
  vm_compute in C. discriminate C.
Qed.

(* ===================================================================== *)
(** * [Generate]: the walk *)
(* ===================================================================== *)

Section Walk.

Lemma FsTree_nested_ind (P : FsTree -> Prop) :
  (forall n, P (TFile n)) ->
  (forall n, P (TDir n None)) ->
  (forall n entries, Forall P entries -> P (TDir n (Some entries))) ->
  forall t, P t.
Proof.
  intros Hf Hn Hd. fix IH 1. intros [n|n [entries|]].
  - apply Hf.
  - apply Hd. induction entries as [|d entries IHe]; constructor.
    + apply IH.
    + exact IHe.
  - apply Hn.
Qed.

(** What [Generate] does at an entry: nothing below or after an entry named
    [internal]; the directory of an entry named [go.mod] is appended. *)
Lemma find_module_visit path t acc :
  find_module path (Visit (entry_of t)) acc
  = if String.eqb (entry_name t) "internal" then (acc, SkipDir)
    else (acc ++ (if String.eqb (entry_name t) "go.mod"
                  then [filepath.Dir path] else []), WalkNil).
Proof.
  unfold find_module, entry_name.
  destruct (String.eqb _ "internal"); [reflexivity|].
  destruct (String.eqb _ "go.mod"); [reflexivity|]. by rewrite app_nil_r.
Qed.

Lemma walk_entries_complete path entries :
  Forall (fun t => walkable t = true ->
            forall path acc,
              walkDir find_module path t acc
              = (acc ++ map filepath.Dir (gomod_paths path t), WalkNil))
         entries ->
  forallb walkable entries = true ->
  forall acc,
    walk_entries (walkDir find_module) path entries acc
    = (acc ++ map filepath.Dir
                (flat_map (fun d => gomod_paths
                                      (filepath.Join [path; entry_name d]) d)
                          entries),
       WalkNil).
Proof.
  induction 1 as [|d entries Hd _ IH]; intros Hw acc.
  - cbn. by rewrite app_nil_r.
  - cbn [forallb] in Hw. apply andb_true_iff in Hw as [Hwd Hwe].
    cbn [walk_entries flat_map]. fold (entry_name d).
    rewrite (Hd Hwd), (IH Hwe), List.map_app. by rewrite app_assoc.
Qed.

(** In a tree without entries named [internal] and without unreadable
    directories, the walk ends without error and has collected the
    directory of every entry named [go.mod]. *)
Lemma walkDir_complete t :
  walkable t = true ->
  forall path acc,
    walkDir find_module path t acc
    = (acc ++ map filepath.Dir (gomod_paths path t), WalkNil).
Proof.
  induction t as [n|n|n entries IH] using FsTree_nested_ind;
    intros Hw path acc; cbn [walkable] in Hw;
    apply andb_true_iff in Hw as [Hname Hw]; [|discriminate Hw|];
    apply negb_true_iff in Hname;
    cbn [walkDir gomod_paths]; rewrite find_module_visit, Hname.
  - rewrite app_nil_r. by destruct (String.eqb _ "go.mod").
  - rewrite (walk_entries_complete path entries IH Hw), List.map_app.
    rewrite app_assoc. do 2 f_equal.
    by destruct (String.eqb _ "go.mod").
Qed.

Lemma walk_entries_sound path entries :
  Forall (fun t => forall path acc,
            exists found,
              fst (walkDir find_module path t acc) = acc ++ found /\
              incl found (map filepath.Dir (gomod_paths path t)))
         entries ->
  forall acc,
    exists found,
      fst (walk_entries (walkDir find_module) path entries acc) = acc ++ found
      /\ incl found
           (map filepath.Dir
              (flat_map (fun d => gomod_paths
                                    (filepath.Join [path; entry_name d]) d)
                        entries)).
Proof.
  induction 1 as [|d entries Hd _ IH]; intros acc.
  - exists []. cbn. split; [by rewrite app_nil_r|apply incl_nil_l].
  - cbn [walk_entries flat_map]. fold (entry_name d).
    destruct (Hd (filepath.Join [path; entry_name d]) acc) as (f1 & E1 & I1).
    rewrite List.map_app.
    destruct (walkDir find_module _ d acc) as [st' r]. cbn [fst] in E1.
    subst st'. destruct r.
    + destruct (IH (acc ++ f1)) as (f2 & E2 & I2). exists (f1 ++ f2).
      split; [by rewrite E2, app_assoc|].
      apply incl_app; [by apply incl_appl|by apply incl_appr].
    + exists f1. split; [reflexivity|by apply incl_appl].
    + exists f1. split; [reflexivity|by apply incl_appl].
Qed.

(** Whatever the tree, every directory that the walk collects is the
    directory of an entry named [go.mod]. *)
Lemma walkDir_sound t :
  forall path acc,
    exists found,
      fst (walkDir find_module path t acc) = acc ++ found /\
      incl found (map filepath.Dir (gomod_paths path t)).
Proof.
  induction t as [n|n|n entries IH] using FsTree_nested_ind;
    intros path acc; cbn [walkDir gomod_paths];
    rewrite find_module_visit;
    (destruct (String.eqb _ "internal");
     [exists []; split; [by rewrite app_nil_r|apply incl_nil_l]|]).
  - eexists. split; [reflexivity|]. rewrite app_nil_r.
    destruct (String.eqb _ "go.mod"); apply incl_refl.
  - eexists. split; [reflexivity|]. rewrite app_nil_r.
    destruct (String.eqb _ "go.mod"); apply incl_refl.
  - destruct (walk_entries_sound path entries IH
                (acc ++ (if String.eqb (entry_name (TDir n (Some entries)))
                                       "go.mod"
                         then [filepath.Dir path] else [])))
      as (found & E & I).
    eexists. split; [rewrite E, <- app_assoc; reflexivity|].
    rewrite List.map_app. apply incl_app; [|by apply incl_appr].
    apply incl_appl. destruct (String.eqb _ "go.mod"); apply incl_refl.
Qed.

End Walk.

Section SeenFacts.

Lemma walkDir_internal path t acc :
  entry_name t = "internal" ->
  walkDir find_module path t acc
  = (acc, if DirEntry.IsDir (entry_of t) then WalkNil else SkipDir).
Proof.
  intros E. destruct t as [n|n l]; cbn [walkDir];
    rewrite find_module_visit, E; reflexivity.
Qed.

Lemma seen_name path t : entry_name (fst (seen path t)) = entry_name t.
Proof.
  destruct t as [n|n [entries|]]; cbn [seen]; try reflexivity.
  by destruct (seen_entries seen path entries).
Qed.

Lemma walk_entries_seen path entries :
  Forall (fun t => forall path acc,
            entry_name t <> "internal" ->
            walkDir find_module path t acc
            = (acc ++ map filepath.Dir (gomod_paths path (fst (seen path t))),
               walk_result (snd (seen path t))))
         entries ->
  forall acc,
    walk_entries (walkDir find_module) path entries acc
    = (acc ++ map filepath.Dir
                (flat_map (fun d => gomod_paths
                                      (filepath.Join [path; entry_name d]) d)
                          (fst (seen_entries seen path entries))),
       walk_result (snd (seen_entries seen path entries))).
Proof.
  induction 1 as [|d entries Hd _ IH]; intros acc.
  - cbn. by rewrite app_nil_r.
  - cbn [walk_entries seen_entries]. fold (entry_name d).
    destruct (String.eqb_spec (entry_name d) "internal") as [E|E].
    + rewrite walkDir_internal by assumption.
      destruct d as [n|n l]; cbn [entry_of DirEntry.IsDir].
      * cbn. by rewrite app_nil_r.
      * apply IH.
    + rewrite (Hd _ _ E).
      pose proof (seen_name (filepath.Join [path; entry_name d]) d) as Hn.
      destruct (seen (filepath.Join [path; entry_name d]) d) as [d' [p|]];
        cbn [fst snd walk_result] in *.
      * cbn [flat_map]. by rewrite Hn, app_nil_r.
      * rewrite IH. destruct (seen_entries seen path entries) as [rest' r].
        cbn [fst snd flat_map]. by rewrite Hn, List.map_app, app_assoc.
Qed.

Lemma map_Dir_if (c : bool) path rest :
  map filepath.Dir ((if c then [path] else []) ++ rest)
  = (if c then [filepath.Dir path] else []) ++ map filepath.Dir rest.
Proof. by destruct c. Qed.

Lemma walkDir_seen t :
  forall path acc,
    entry_name t <> "internal" ->
    walkDir find_module path t acc
    = (acc ++ map filepath.Dir (gomod_paths path (fst (seen path t))),
       walk_result (snd (seen path t))).
Proof.
  induction t as [n|n|n entries IH] using FsTree_nested_ind;
    intros path acc Hn; cbn [walkDir seen];
    rewrite find_module_visit;
    rewrite (proj2 (String.eqb_neq _ _) Hn).
  - cbn [gomod_paths fst snd walk_result].
    by rewrite map_Dir_if, app_nil_r.
  - cbn [gomod_paths fst snd walk_result find_module].
    by rewrite map_Dir_if, app_nil_r.
  - rewrite (walk_entries_seen path entries IH).
    destruct (seen_entries seen path entries) as [entries' r].
    cbn [fst snd gomod_paths]. rewrite map_Dir_if.
    change (entry_name (TDir n (Some entries')))
      with (entry_name (TDir n (Some entries))).
    by rewrite app_assoc.
Qed.

Lemma walkable_name t : walkable t = true -> entry_name t <> "internal".
Proof.
  destruct t as [n|n l]; cbn [walkable]; intros [Hn _]%andb_true_iff;
    by apply negb_true_iff, String.eqb_neq in Hn.
Qed.

Lemma seen_entries_walkable path entries :
  Forall (fun t => walkable t = true -> forall path, seen path t = (t, None))
         entries ->
  forallb walkable entries = true ->
  seen_entries seen path entries = (entries, None).
Proof.
  induction 1 as [|d entries Hd _ IH]; intros Hw; [reflexivity|].
  cbn [forallb] in Hw. apply andb_true_iff in Hw as [Hwd Hwe].
  cbn [seen_entries].
  rewrite (proj2 (String.eqb_neq _ _) (walkable_name d Hwd)).
  by rewrite (Hd Hwd), (IH Hwe).
Qed.

(** In a tree that can be walked everything is seen. *)
Lemma seen_walkable t :
  walkable t = true -> forall path, seen path t = (t, None).
Proof.
  induction t as [n|n|n entries IH] using FsTree_nested_ind;
    intros Hw path; cbn [seen]; [reflexivity| |].
  - cbn [walkable] in Hw. by rewrite andb_false_r in Hw.
  - cbn [walkable] in Hw. apply andb_true_iff in Hw as [_ Hw].
    by rewrite (seen_entries_walkable path entries IH Hw).
Qed.

End SeenFacts.

Section SinglePass.
Context `{Runtime} `{!Toolchain}.

Lemma find_modules_tree (F : FileTree) root w t :
  @os_tree F w root = Some t ->
  @find_modules F root w = fst (walkDir find_module root t []).
Proof.
  intros E. unfold find_modules, WalkDir. rewrite E.
  by destruct (walkDir find_module root t []).
Qed.

Lemma find_modules_seen (F : FileTree) root w t :
  @os_tree F w root = Some t ->
  @find_modules F root w = modules_seen root t.
Proof.
  intros E. rewrite (find_modules_tree F root w t E). unfold modules_seen.
  destruct (String.eqb_spec (entry_name t) "internal") as [Hi|Hi].
  - by rewrite walkDir_internal.
  - by rewrite walkDir_seen.
Qed.

(** C8 (amended). [Generate] is a single pass: it is the walk over
    [rootDir], which gives the list of modules, followed by the loading and
    processing of these modules, which never looks at the tree again, so
    that two file systems that show the same tree at [rootDir] when
    [Generate] starts give the same run, whatever they show later. The
    walk collects the directory of every entry named [go.mod] in the part
    of the tree that it sees, and nothing else. It does not see what is
    below a directory named [internal] (the entries after such a directory
    are seen), nor a regular file named [internal] and the entries after it
    in its directory, nor anything after the first directory that cannot
    be read. In a tree without such entries everything is seen, and the
    walk collects the directory of every entry named [go.mod]. *)
Theorem Generate_single_pass (F1 F2 : FileTree) (rootDir outDir : string)
    (m : gmap string string) (w : World) (t : FsTree) :
  let root := if String.eqb rootDir "" then "." else rootDir in
  let out :=
    if String.eqb outDir "" then "internal/generated/snippets" else outDir in
  @Generate _ _ _ F1 rootDir outDir m w
  = generate_modules (@find_modules F1 root w) out m w
  /\ (@os_tree F1 w root = @os_tree F2 w root ->
      @Generate _ _ _ F1 rootDir outDir m w
      = @Generate _ _ _ F2 rootDir outDir m w)
  /\ (@os_tree F1 w root = Some t ->
      @find_modules F1 root w = modules_seen root t
      /\ (forall d, In d (@find_modules F1 root w) ->
                    In d (map filepath.Dir (gomod_paths root t)))
      /\ (walkable t = true ->
          seen root t = (t, None) /\
          @find_modules F1 root w = map filepath.Dir (gomod_paths root t))).
Proof.
  intros root out. split; [reflexivity|]. split.
  - intros E. unfold Generate, find_modules. fold root. by rewrite E.
  - intros E. split; [by apply find_modules_seen|].
    rewrite (find_modules_tree F1 root w t E). split.
    + destruct (walkDir_sound t root []) as (found & -> & I). exact I.
    + intros Hw. split; [by apply seen_walkable|].
      by rewrite (walkDir_complete t Hw).
Qed.


End SinglePass.

Lemma Generate_single_pass_witness :
  @Generate Sample.ast Sample.runtime Sample.toolchain
     (Sample.file_tree Sample.tree_ac) "" "" Sample.apiShortnames Sample.w0
  = @Generate Sample.ast Sample.runtime Sample.toolchain
      (Sample.file_tree_once Sample.tree_ac) "" "" Sample.apiShortnames
      Sample.w0
  /\ @find_modules (Sample.file_tree Sample.tree_abc) "." Sample.w0
     = map filepath.Dir (gomod_paths "." Sample.tree_abc)
  /\ @find_modules (Sample.file_tree Sample.tree_unreadable) "." Sample.w0
     = modules_seen "." Sample.tree_unreadable
  /\ modules_seen "." Sample.tree_unreadable = ["a"]
  /\ modules_seen "." Sample.tree_internal = [].
Proof.
  split; [|split; [|split; [|split; reflexivity]]].
  - apply (proj1 (proj2 (@Generate_single_pass Sample.ast Sample.runtime
                           Sample.toolchain
                           (Sample.file_tree Sample.tree_ac)
                           (Sample.file_tree_once Sample.tree_ac)
                           "" "" Sample.apiShortnames Sample.w0
                           Sample.tree_ac))).
    reflexivity.
  - destruct (proj2 (proj2 (@Generate_single_pass Sample.ast Sample.runtime
                              Sample.toolchain
                              (Sample.file_tree Sample.tree_abc)
                              (Sample.file_tree Sample.tree_abc)
                              "" "" Sample.apiShortnames Sample.w0
                              Sample.tree_abc)) eq_refl)
      as (_ & _ & Hall).
    exact (proj2 (Hall eq_refl)).
  - destruct (proj2 (proj2 (@Generate_single_pass Sample.ast Sample.runtime
                              Sample.toolchain
                              (Sample.file_tree Sample.tree_unreadable)
                              (Sample.file_tree Sample.tree_unreadable)
                              "" "" Sample.apiShortnames Sample.w0
                              Sample.tree_unreadable)) eq_refl)
      as (Hseen & _ & _).
    exact Hseen.
Defined.

(** C8 as first stated fails: the walk does not enter a directory named
    [internal], so the directory of a [go.mod] file below it is not
    collected. *)
Lemma Generate_single_pass_counterexample :
  ~ (forall (F : FileTree) (root : string) (w : World) (t : FsTree),
       @os_tree F w root = Some t ->
       forall p, In p (gomod_paths root t) ->
                 In (filepath.Dir p) (@find_modules F root w)).
Proof.
  intros C.
  apply (C (Sample.file_tree Sample.tree_internal) "." Sample.w0
           Sample.tree_internal eq_refl "internal/tools/go.mod").
  vm_compute. tauto.
Qed.

(* ===================================================================== *)
(** * Failures and what is left untouched *)
(* ===================================================================== *)

Section Frame.

Lemma keeps_files_refl fs w : keeps_files fs w w.
Proof. by repeat split. Qed.

Lemma keeps_files_trans fs w1 w2 w3 :
  keeps_files fs w1 w2 -> keeps_files fs w2 w3 -> keeps_files fs w1 w3.
Proof.
  intros (D1 & F1 & S1) (D2 & F2 & S2). split; [|split].
  - by etrans.
  - intros p Hp. by rewrite F2, F1.
  - intros p Hp. by apply S2, S1.
Qed.

Lemma keeps_files_mono fs fs' w w' :
  incl fs fs' -> keeps_files fs w w' -> keeps_files fs' w w'.
Proof.
  intros Hi (D & F & S). split; [assumption|]. split; [|assumption].
  intros p Hp. apply F. intros Hin. by apply Hp, Hi.
Qed.

Lemma bind_keeps {A B} fs (m : M A) (k : A -> M B) w w' r :
  (forall w1 a, m w = (w1, a) -> keeps_files fs w w1) ->
  (forall w1 a w2 b, m w = (w1, Ok a) -> k a w1 = (w2, b) ->
                     keeps_files fs w1 w2) ->
  bind m k w = (w', r) -> keeps_files fs w w'.
Proof.
  intros Hm Hk. unfold bind. destruct (m w) as [w1 [a|e]] eqn:E.
  - intros Ek. eapply keeps_files_trans; [by eapply Hm|by eapply Hk].
  - intros [= <- _]. by eapply Hm.
Qed.

Context `{Runtime}.

Lemma syscall_keeps {A} fs op path (effect : World -> World * A) partial
    w w' r :
  (forall w0, keeps_files fs w0 (fst (effect w0))) ->
  (forall k w0, keeps_files fs w0 (partial k w0)) ->
  syscall op path effect partial w = (w', r) -> keeps_files fs w w'.
Proof.
  intros He Hp. unfold syscall. destruct (os_fails (tick w)).
  - intros [= <- _]. specialize (Hp (os_progress (tick w)) (with_tick w)).
    destruct Hp as (D & F & S). by repeat split.
  - specialize (He (with_tick w)).
    destruct (effect (with_tick w)) as [w1 a]. by intros [= <- _].
Qed.

Lemma add_dirs_keeps fs ds w : keeps_files fs w (add_dirs ds w).
Proof. split; [|by split]. cbn [dirs add_dirs]. apply union_subseteq_l. Qed.

Lemma write_keeps f s w :
  keeps_files [f]
    w (mkWorld (<[f := s]> (files w)) (dirs w) (logged w) (tick w)).
Proof.
  split; [done|]. split; cbn [files].
  - intros p Hp. apply lookup_insert_ne. intros <-. apply Hp. by left.
  - intros p Hp. destruct (decide (f = p)) as [<-|Hne].
    + rewrite lookup_insert_eq. eauto.
    + by rewrite lookup_insert_ne.
Qed.

Lemma WriteString_keeps f s w w' r :
  WriteString f s w = (w', r) -> keeps_files [f] w w'.
Proof. apply syscall_keeps; intros; apply write_keeps. Qed.

(** A round of the loop of [writeExamples], however it ends, removes
    nothing and changes no file but the file of its example. *)
Lemma writeExample_keeps outDir n fset regionTag ex w w' r :
  writeExample outDir n fset regionTag ex w = (w', r) ->
  keeps_files [example_file outDir n ex] w w'.
Proof.
  unfold writeExample. fold (example_file outDir n ex).
  apply bind_keeps.
  { intros w1 a [= <- _]. apply keeps_files_refl. }
  intros w1 s w2 b _. apply bind_keeps.
  { intros w3 a. apply syscall_keeps; intros; apply add_dirs_keeps. }
  intros w3 [] w4 b2 _. apply bind_keeps.
  { intros w5 a. apply syscall_keeps; [intros w0; apply write_keeps|].
    intros k w0. apply keeps_files_refl. }
  intros w5 f w6 b3 (_ & Ef)%syscall_ok. injection Ef as _ <-.
  apply bind_keeps.
  { intros w7 a [= <- _]. by repeat split. }
  intros w7 h w8 b4 _. apply bind_keeps; [intros ? ?; apply WriteString_keeps|].
  intros w9 [] w10 b5 _. apply bind_keeps; [intros ? ?; apply WriteString_keeps|].
  intros w11 [] w12 b6 _. apply bind_keeps; [intros ? ?; apply WriteString_keeps|].
  intros w13 [] w14 b7 _. apply WriteString_keeps.
Qed.

Lemma forM_keeps {A} (f : A -> M unit) (g : A -> string) l w w' r :
  (forall x w w' r, f x w = (w', r) -> keeps_files [g x] w w') ->
  forM_ f l w = (w', r) -> keeps_files (map g l) w w'.
Proof.
  intros Hf. revert w w' r. induction l as [|x l IH]; intros w w' r.
  - intros [= <- _]. apply keeps_files_refl.
  - cbn [forM_ map]. apply bind_keeps.
    + intros w1 a E. eapply keeps_files_mono; [|by eapply Hf].
      intros p [<-|[]]. by left.
    + intros w1 [] w2 b _ E. eapply keeps_files_mono; [|by eapply IH].
      intros p Hp. by right.
Qed.

Lemma run_job_keeps fset regionTag j w w' r :
  run_job fset regionTag j w = (w', r) -> keeps_files [job_file j] w w'.
Proof. destruct j as [[outDir n] ex]. apply writeExample_keeps. Qed.

End Frame.

Section FrameTheorems.
Context `{Runtime}.

Lemma writeExample_logged outDir n fset regionTag ex w w' r :
  writeExample outDir n fset regionTag ex w = (w', r) ->
  logged w' = logged w.
Proof.
  unfold writeExample, bind, format_to_string, os_MkdirAll, os_OpenFile,
    header, WriteString, syscall, time_Now_Year, ret, bind.
  destruct (format_Node fset (example_node ex)); [|by intros [= <- _]].
  cbn [with_tick tick files dirs logged].
  repeat (match goal with
          | |- context [if ?b then _ else _] => destruct b
          end; cbn [with_tick tick files dirs logged];
          [by intros [= <- _]|]).
  by intros [= <- _].
Qed.

Lemma forM_logged {A} (f : A -> M unit) l w w' r :
  (forall x w w' r, f x w = (w', r) -> logged w' = logged w) ->
  forM_ f l w = (w', r) -> logged w' = logged w.
Proof.
  intros Hf. revert w. induction l as [|x l IH]; intros w.
  - by intros [= <- _].
  - cbn [forM_]. unfold bind. destruct (f x w) as [w1 [[]|e]] eqn:E.
    + intros E2. rewrite (IH _ E2). by eapply Hf.
    + intros [= <- _]. by eapply Hf.
Qed.

Lemma find_shortname_logged ip m w w1 r :
  find_shortname ip m w = (w1, r) ->
  logged w1 = logged w \/
  exists k, logged w1 = logged w ++ [LogBestMatch ip k].
Proof.
  unfold find_shortname. destruct (m !! ip); [intros [= <- _]; by left|].
  unfold bind, range_keys. destruct (String.eqb _ "").
  - intros [= <- _]. by left.
  - intros [= <- _]. right. eauto.
Qed.

(** X1. However [processExamples] ends, with or without error, it removes
    no file and no directory, it changes no file but the files of the
    examples of the package, and it adds to the log at most the line
    about the best match. *)
Theorem processExamples_keeps (pkg : Package.t) (fset : token_FileSet)
    (trimPrefix outDir : string) (m : gmap string string)
    (w w' : World) (r : result unit) :
  processExamples pkg fset trimPrefix outDir m w = (w', r) ->
  let ip := Package.ImportPath pkg in
  let dir := filepath.Join [outDir; strings.TrimPrefix ip trimPrefix] in
  keeps_files (map job_file (package_jobs dir pkg)) w w'
  /\ (logged w' = logged w \/
      exists k, logged w' = logged w ++ [LogBestMatch ip k]).
Proof.
  intros Hrun ip dir. unfold processExamples in Hrun. fold ip dir in Hrun.
  destruct (index_bool skip ip).
  { injection Hrun as <- _. split; [apply keeps_files_refl|by left]. }
  unfold bind in Hrun.
  destruct (find_shortname ip m w) as [w1 [sn|e]] eqn:Efind.
  - rewrite write_package_jobs in Hrun.
    destruct (find_shortname_files _ _ _ _ _ Efind) as (Hf & Hd & _).
    split.
    + apply (forM_keeps _ job_file) in Hrun; [|apply run_job_keeps].
      destruct Hrun as (D & F & S). unfold keeps_files.
      rewrite <- Hf, <- Hd. by repeat split.
    + apply forM_logged in Hrun.
      * rewrite Hrun. by eapply find_shortname_logged.
      * intros [[d n] ex] ? ? ?. apply writeExample_logged.
  - injection Hrun as <- _.
    destruct (find_shortname_files _ _ _ _ _ Efind) as (Hf & Hd & _).
    split; [|by eapply find_shortname_logged].
    unfold keeps_files. rewrite Hf, Hd. by repeat split.
Qed.

End FrameTheorems.

Lemma processExamples_keeps_witness :
  files (fst (@processExamples Sample.ast (Sample.failing_at 3)
                Sample.pkg_monitoring tt "cloud.google.com/go"
                "internal/generated/snippets" Sample.apiShortnames
                Sample.w_old))
    !! "out/main.go"
  = Some "old".
Proof.
  pose (r := @processExamples Sample.ast (Sample.failing_at 3)
               Sample.pkg_monitoring tt "cloud.google.com/go"
               "internal/generated/snippets" Sample.apiShortnames
               Sample.w_old).
  destruct (@processExamples_keeps Sample.ast (Sample.failing_at 3)
              Sample.pkg_monitoring tt "cloud.google.com/go"
              "internal/generated/snippets" Sample.apiShortnames
              Sample.w_old (fst r) (snd r) (surjective_pairing r))
    as ((_ & Hsame & _) & _).
  fold r. rewrite Hsame; [reflexivity|].
  vm_compute. intros [E|[]]. discriminate E.
Defined.

Section RoundFailures.
Context `{Runtime}.

(** X2. The loop of [writeExamples] stops at the first example whose
    round fails: it returns the error of that round as it is, in the world
    that round has left; the examples before it stay written and those
    after it are not attempted. In particular an example that
    [format.Node] cannot print costs no call to the operating system: no
    directory and no file is made for it. *)
Theorem writeExamples_first_error (outDir : string)
    (before : list Example.t) (ex : Example.t) (after : list Example.t)
    (fset : token_FileSet) (regionTag : string) (w w1 w2 : World)
    (e : error) :
  let exs := before ++ ex :: after in
  forM_ (writeExample outDir (length exs) fset regionTag) before w
  = (w1, Ok tt) ->
  (writeExample outDir (length exs) fset regionTag ex w1 = (w2, Fail e) ->
   writeExamples outDir exs fset regionTag w = (w2, Fail e))
  /\ (format_Node fset (example_node ex) = Fail e ->
      writeExamples outDir exs fset regionTag w = (w1, Fail e)).
Proof.
  intros exs Hbefore.
  assert (Hloop : forall w2 e',
            writeExample outDir (length exs) fset regionTag ex w1
            = (w2, Fail e') ->
            writeExamples outDir exs fset regionTag w = (w2, Fail e')).
  { intros w2' e' Hex. unfold writeExamples.
    replace (length exs =? 0)%nat with false.
    2:{ symmetry. apply Nat.eqb_neq. unfold exs. rewrite List.length_app.
        cbn [length]. lia. }
    unfold exs at 2. rewrite forM_app. unfold bind at 1. rewrite Hbefore.
    cbn [forM_]. unfold bind. by rewrite Hex. }
  split; [apply Hloop|].
  intros Hfmt. apply Hloop. unfold writeExample, bind, format_to_string.
  by rewrite Hfmt.
Qed.

End RoundFailures.

Lemma writeExamples_first_error_witness :
  @writeExamples Sample.ast Sample.picky_runtime "out"
     [Sample.ex_first; Sample.ex_bad; Sample.ex_second] tt "r" Sample.w0
  = (fst (forM_ (@writeExample Sample.ast Sample.picky_runtime "out" 3 tt "r")
                [Sample.ex_first] Sample.w0),
     Fail (Err "syntax error")).
Proof.
  apply (proj2 (@writeExamples_first_error Sample.ast Sample.picky_runtime
                  "out" [Sample.ex_first] Sample.ex_bad [Sample.ex_second]
                  tt "r" Sample.w0 _ Sample.w0 (Err "syntax error")
                  ltac:(vm_compute; reflexivity))).
  reflexivity.
Defined.

Section Partial.
Import strings.

Lemma slice_from_nonempty n s :
  n < String.length s -> slice_from n s <> "".
Proof.
  revert s. induction n as [|n IH]; intros [|c s]; cbn [String.length slice_from];
    try lia; [discriminate|]. intros Hn. apply IH. lia.
Qed.

(** What is left to write once a write of [s] has failed: not nothing,
    when [s] or what follows it is not empty. *)
Lemma unwritten k s after :
  s <> "" \/ after <> "" ->
  let n := Nat.min k (String.length s - 1) in
  s +:+ after = slice_to n s +:+ (slice_from n s +:+ after)
  /\ slice_from n s +:+ after <> "".
Proof.
  intros Hne n. split.
  - by rewrite <- append_assoc, slice_to_from.
  - destruct (String.eqb_spec s "") as [->|Hs].
    + destruct Hne as [[]|Ha]; [reflexivity|].
      subst n. cbn [String.length]. rewrite Nat.min_0_r. exact Ha.
    + apply append_nonempty, slice_from_nonempty.
      destruct s; [done|]. subst n. cbn [String.length]. lia.
Qed.

End Partial.

Section WriteFailures.
Context `{Runtime}.

Lemma syscall_fail {A} op path (effect : World -> World * A) partial w :
  os_fails (tick w) = true ->
  syscall op path effect partial w
  = (partial (os_progress (tick w)) (with_tick w),
     Fail (Err (op +:+ " " +:+ path +:+ ": failed"))).
Proof. intros E. unfold syscall. by rewrite E. Qed.

Lemma syscall_run {A} op path (effect : World -> World * A) partial w :
  os_fails (tick w) = false ->
  syscall op path effect partial w
  = (fst (effect (with_tick w)), Ok (snd (effect (with_tick w)))).
Proof.
  intros E. unfold syscall. rewrite E. by destruct (effect (with_tick w)).
Qed.

(** A write to a file that holds [c]: it adds [s], or fails and adds some
    first bytes of [s], fewer than [s] has. *)
Lemma WriteString_step f s c after (m : gmap string string) w w' r :
  files w = <[f := c]> m ->
  s <> "" \/ after <> "" ->
  WriteString f s w = (w', r) ->
  dirs w' = dirs w /\ tick w' = S (tick w) /\
  match r with
  | Ok _ => files w' = <[f := c +:+ s]> m
  | Fail _ =>
      exists written rest,
        rest <> "" /\ c +:+ s +:+ after = written +:+ rest /\
        files w' = <[f := written]> m
  end.
Proof.
  intros Hc Hne. unfold WriteString.
  destruct (os_fails (tick w)) eqn:E.
  - rewrite syscall_fail by assumption. intros [= <- <-].
    unfold append_to, with_tick, File in *. cbn [files dirs tick logged].
    rewrite Hc, lookup_insert_eq, insert_insert_eq.
    cbn [default from_option id]. split; [reflexivity|].
    split; [reflexivity|].
    destruct (unwritten (os_progress (tick w)) s after Hne) as [E1 E2].
    eexists _, _. split; [exact E2|]. split; [|reflexivity].
    by rewrite E1, <- append_assoc.
  - rewrite syscall_run by assumption. intros [= <- <-].
    unfold append_to, with_tick, File in *. cbn [fst snd files dirs tick logged].
    by rewrite Hc, lookup_insert_eq, insert_insert_eq.
Qed.

Lemma writeExample_fails outDir n fset regionTag ex s w w' r :
  format_Node fset (example_node ex) = Ok s ->
  writeExample outDir n fset regionTag ex w = (w', r) ->
  let dir := example_dir outDir n ex in
  (os_fails (tick w) = true ->
   r <> Ok tt /\ files w' = files w /\
   dirs w' = dirs w ∪ list_to_set (take (os_progress (tick w))
                                       (removelast (parents dir))))
  /\ (os_fails (tick w) = false -> os_fails (tick w + 1) = true ->
      r <> Ok tt /\ files w' = files w /\
      dirs w' = dirs w ∪ list_to_set (parents dir))
  /\ (os_fails (tick w) = false -> os_fails (tick w + 1) = false ->
      r <> Ok tt ->
      exists written rest,
        rest <> "" /\
        snippet (year_at (tick w + 2))
                (regionTag +:+ "_" +:+ Example.Name ex) (reformat s)
        = written +:+ rest /\
        files w' = <[example_file outDir n ex := written]> (files w) /\
        dirs w' = dirs w ∪ list_to_set (parents dir)).
Proof.
  intros Hfmt Hrun dir.
  unfold writeExample in Hrun. fold dir in Hrun.
  change (example_file outDir n ex) with (filepath.Join [dir; "main.go"]).
  set (file := filepath.Join [dir; "main.go"]) in *.
  unfold bind at 1 in Hrun. unfold format_to_string in Hrun.
  rewrite Hfmt in Hrun.
  unfold bind at 1 in Hrun. unfold os_MkdirAll in Hrun.
  split; [|split].
  - intros F0. rewrite syscall_fail in Hrun by assumption.
    injection Hrun as <- <-. by repeat split.
  - intros F0 F1. rewrite syscall_run in Hrun by assumption.
    cbn [fst snd] in Hrun.
    unfold bind at 1 in Hrun. unfold os_OpenFile in Hrun.
    rewrite syscall_fail in Hrun
      by (cbn [add_dirs with_tick tick];
          by replace (S (tick w)) with (tick w + 1) by lia).
    injection Hrun as <- <-. by repeat split.
  - intros F0 F1. rewrite syscall_run in Hrun by assumption.
    cbn [fst snd] in Hrun.
    unfold bind at 1 in Hrun. unfold os_OpenFile in Hrun.
    rewrite syscall_run in Hrun
      by (cbn [add_dirs with_tick tick];
          by replace (S (tick w)) with (tick w + 1) by lia).
    cbn [fst snd] in Hrun. unfold bind at 1 in Hrun.
    unfold header, bind, time_Now_Year, ret in Hrun.
    cbn [add_dirs with_tick files dirs logged tick] in Hrun.
    replace (S (S (tick w))) with (tick w + 2) in Hrun by lia.
    set (h := licenseHeader (Sprint_int (year_at (tick w + 2)))) in *.
    set (tag := regionTag +:+ "_" +:+ Example.Name ex) in *.
    set (ds := dirs w ∪ list_to_set (parents dir)) in *.
    match type of Hrun with
    | context [WriteString file h ?w0] => set (w3 := w0) in *
    end.
    assert (E3 : files w3 = <[file := ""]> (files w)) by reflexivity.
    assert (D3 : dirs w3 = ds) by reflexivity.
    assert (Esnip : snippet (year_at (tick w + 2)) tag (reformat s)
                    = h +:+ START tag +:+ reformat s +:+ END_ tag)
      by reflexivity.
    rewrite Esnip. clearbody w3.
    assert (Hend : END_ tag <> "") by discriminate.
    assert (Hstart : START tag <> "") by discriminate.
    destruct (WriteString file h w3) as [w4 [[]|e4]] eqn:W4.
    2:{ injection Hrun as <- <-. intros _.
        destruct (WriteString_step _ _ _
                    (START tag +:+ reformat s +:+ END_ tag) _ _ _ _ E3
                    (or_intror (append_nonempty _ _ Hstart)) W4)
          as (D & _ & written & rest & Hr & Hs & Hf).
        exists written, rest. rewrite <- Hs, Hf, D, D3. done. }
    destruct (WriteString_step _ _ _
                (START tag +:+ reformat s +:+ END_ tag) _ _ _ _ E3
                (or_intror (append_nonempty _ _ Hstart)) W4)
      as (D4 & _ & E4).
    change ("" +:+ h) with h in E4.
    destruct (WriteString file (START tag) w4) as [w5 [[]|e5]] eqn:W5.
    2:{ injection Hrun as <- <-. intros _.
        destruct (WriteString_step _ _ _ (reformat s +:+ END_ tag) _ _ _ _ E4
                    (or_introl Hstart) W5)
          as (D & _ & written & rest & Hr & Hs & Hf).
        exists written, rest. rewrite <- Hs, Hf, D, D4, D3. done. }
    destruct (WriteString_step _ _ _ (reformat s +:+ END_ tag) _ _ _ _ E4
                (or_introl Hstart) W5) as (D5 & _ & E5).
    destruct (WriteString file (reformat s) w5) as [w6 [[]|e6]] eqn:W6.
    2:{ injection Hrun as <- <-. intros _.
        destruct (WriteString_step _ _ _ (END_ tag) _ _ _ _ E5
                    (or_intror Hend) W6)
          as (D & _ & written & rest & Hr & Hs & Hf).
        exists written, rest. rewrite Hf, D, D5, D4, D3.
        rewrite append_assoc in Hs. done. }
    destruct (WriteString_step _ _ _ (END_ tag) _ _ _ _ E5
                (or_intror Hend) W6) as (D6 & _ & E6).
    destruct (WriteString file (END_ tag) w6) as [w7 [[]|e7]] eqn:W7.
    { injection Hrun as <- <-. by intros []. }
    injection Hrun as <- <-. intros _.
    destruct (WriteString_step _ _ _ "" _ _ _ _ E6 (or_introl Hend) W7)
      as (D & _ & written & rest & Hr & Hs & Hf).
    exists written, rest. rewrite Hf, D, D6, D5, D4, D3.
    rewrite append_nil_r, !append_assoc in Hs. done.
Qed.

(** X3. What a round of [writeExamples] leaves behind when a call to the
    operating system fails. If [MkdirAll] fails, no file is touched; it
    may have made parents of the directory of the example, from the top
    down, and has not made that directory. If [OpenFile] fails, the
    directories are made and no file is touched. If a write fails, the
    file of the example holds, whatever it held before, a beginning of the
    snippet that is not all of it: the file was truncated when it was
    opened, and a failed write writes less than it was given. *)
Theorem writeExample_failures (outDir : string) (n : nat)
    (fset : token_FileSet) (regionTag : string) (ex : Example.t)
    (s : string) (w : World) :
  format_Node fset (example_node ex) = Ok s ->
  let w' := fst (writeExample outDir n fset regionTag ex w) in
  let r := snd (writeExample outDir n fset regionTag ex w) in
  let dir := example_dir outDir n ex in
  (os_fails (tick w) = true ->
   r <> Ok tt /\ files w' = files w /\
   dirs w' = dirs w ∪ list_to_set (take (os_progress (tick w))
                                       (removelast (parents dir))))
  /\ (os_fails (tick w) = false -> os_fails (tick w + 1) = true ->
      r <> Ok tt /\ files w' = files w /\
      dirs w' = dirs w ∪ list_to_set (parents dir))
  /\ (os_fails (tick w) = false -> os_fails (tick w + 1) = false ->
      r <> Ok tt ->
      exists written rest,
        rest <> "" /\
        snippet (year_at (tick w + 2))
                (regionTag +:+ "_" +:+ Example.Name ex) (reformat s)
        = written +:+ rest /\
        files w' = <[example_file outDir n ex := written]> (files w) /\
        dirs w' = dirs w ∪ list_to_set (parents dir)).
Proof.
  intros Hfmt w' r. apply (writeExample_fails _ _ _ _ _ s w w' r Hfmt).
  apply surjective_pairing.
Qed.

End WriteFailures.

Lemma writeExample_failures_witness :
  exists written rest,
    rest <> "" /\
    snippet 2021 "r_GroupClient_UpdateGroup" ("package main" +:+ NL)
    = written +:+ rest /\
    files (fst (@writeExample Sample.ast (Sample.failing_at 3) "out" 1 tt "r"
                  Sample.ex_update Sample.w_old))
    = <[ "out/main.go" := written ]> (files Sample.w_old).
Proof.
  destruct (@writeExample_failures Sample.ast (Sample.failing_at 3)
              "out" 1 tt "r" Sample.ex_update _ Sample.w_old eq_refl)
    as (_ & _ & Hwrite).
  destruct (Hwrite eq_refl eq_refl ltac:(vm_compute; discriminate))
    as (written & rest & Hr & Hs & Hf & _).
  exists written, rest. split; [exact Hr|]. split; [exact Hs|exact Hf].
Defined.

(* ===================================================================== *)
(** * Edge cases of the walk *)
(* ===================================================================== *)

Section WalkEdges.

Lemma walk_entries_cut path before d after :
  (forall p acc, exists acc' r,
      walkDir find_module p d acc = (acc', r) /\ r <> WalkNil) ->
  forall acc,
    walk_entries (walkDir find_module) path (before ++ d :: after) acc
    = walk_entries (walkDir find_module) path (before ++ [d]) acc.
Proof.
  intros Hd. induction before as [|b before IH]; intros acc.
  - cbn [app walk_entries].
    destruct (Hd (filepath.Join [path; DirEntry.Name (entry_of d)]) acc)
      as (acc' & r & -> & Hr).
    by destruct r.
  - cbn [app walk_entries].
    destruct (walkDir find_module _ b acc) as [st' []]; [apply IH|done..].
Qed.

Lemma walk_entries_skip_last path before d :
  (forall p acc, walkDir find_module p d acc = (acc, SkipDir)) ->
  forall acc,
    walk_entries (walkDir find_module) path (before ++ [d]) acc
    = walk_entries (walkDir find_module) path before acc.
Proof.
  intros Hd. induction before as [|b before IH]; intros acc.
  - cbn [app walk_entries]. by rewrite Hd.
  - cbn [app walk_entries].
    destruct (walkDir find_module _ b acc) as [st' []]; [apply IH|done..].
Qed.

Lemma walk_entries_absent path before d after :
  (forall p acc, walkDir find_module p d acc = (acc, WalkNil)) ->
  forall acc,
    walk_entries (walkDir find_module) path (before ++ d :: after) acc
    = walk_entries (walkDir find_module) path (before ++ after) acc.
Proof.
  intros Hd. induction before as [|b before IH]; intros acc.
  - cbn [app walk_entries]. by rewrite Hd.
  - cbn [app walk_entries].
    destruct (walkDir find_module _ b acc) as [st' []]; [apply IH|done..].
Qed.

Lemma walkDir_same_entries path n entries1 entries2 acc :
  (forall acc,
     walk_entries (walkDir find_module) path entries1 acc
     = walk_entries (walkDir find_module) path entries2 acc) ->
  walkDir find_module path (TDir n (Some entries1)) acc
  = walkDir find_module path (TDir n (Some entries2)) acc.
Proof.
  intros E. cbn [walkDir]. rewrite !find_module_visit.
  unfold entry_name. cbn [entry_of DirEntry.Name DirEntry.IsDir].
  destruct (String.eqb n "internal"); [reflexivity|apply E].
Qed.

(** X4. Entries named [internal], wherever they are in the tree. A
    directory named [internal] is as if it were absent, whatever it holds.
    A regular file named [internal] hides itself and every entry after it
    in its directory: the walk goes on as if the directory ended before
    it. *)
Theorem walk_internal (path n : string) (before after : list FsTree)
    (listing : option (list FsTree)) (acc : list string) :
  walkDir find_module path
    (TDir n (Some (before ++ TDir "internal" listing :: after))) acc
  = walkDir find_module path (TDir n (Some (before ++ after))) acc
  /\ walkDir find_module path
       (TDir n (Some (before ++ TFile "internal" :: after))) acc
     = walkDir find_module path (TDir n (Some before)) acc.
Proof.
  split; apply walkDir_same_entries; intros acc'.
  - apply walk_entries_absent. intros p a. by rewrite walkDir_internal.
  - rewrite walk_entries_cut.
    + apply walk_entries_skip_last. intros p a. by rewrite walkDir_internal.
    + intros p a. rewrite walkDir_internal by reflexivity.
      eexists _, _. split; [reflexivity|discriminate].
Qed.

Lemma walk_entries_walkable path before rest :
  forallb walkable before = true ->
  forall acc,
    walk_entries (walkDir find_module) path (before ++ rest) acc
    = walk_entries (walkDir find_module) path rest
        (acc ++ map filepath.Dir
                  (flat_map (fun d => gomod_paths
                                        (filepath.Join [path; entry_name d]) d)
                            before)).
Proof.
  induction before as [|b before IH]; intros Hw acc.
  - cbn. by rewrite app_nil_r.
  - cbn [forallb] in Hw. apply andb_true_iff in Hw as [Hb Hw].
    cbn [app walk_entries flat_map]. fold (entry_name b).
    rewrite (walkDir_complete b Hb), (IH Hw), List.map_app.
    by rewrite app_assoc.
Qed.

Lemma stops_at_name path t p t' :
  stops_at path t p t' -> entry_name t' = entry_name t.
Proof. by destruct 1. Qed.

Lemma walkDir_stops path t p t' :
  stops_at path t p t' ->
  forall acc,
    walkDir find_module path t acc
    = (acc ++ map filepath.Dir (gomod_paths path t'),
       WalkErr (ReadDir_error p)).
Proof.
  induction 1 as [path u Hu|path n before d after p d' Hn Hw Hd IH];
    intros acc; cbn [walkDir]; rewrite find_module_visit.
  - change (entry_name (TDir u None)) with u.
    rewrite (proj2 (String.eqb_neq _ _) Hu).
    cbn [gomod_paths find_module].
    change (entry_name (TDir u None)) with u.
    by rewrite map_Dir_if, app_nil_r.
  - change (entry_name (TDir n (Some (before ++ d :: after)))) with n.
    rewrite (proj2 (String.eqb_neq _ _) Hn).
    rewrite walk_entries_walkable by assumption.
    cbn [walk_entries]. fold (entry_name d). rewrite IH.
    cbn [gomod_paths]. rewrite map_Dir_if.
    change (entry_name (TDir n (Some (before ++ [d'])))) with n.
    rewrite flat_map_app. cbn [flat_map].
    rewrite (stops_at_name _ _ _ _ Hd), app_nil_r, List.map_app.
    by rewrite !app_assoc.
Qed.

(** X5. A directory that cannot be read ends the whole walk. When it is
    in no directory named [internal] and everything before it in the walk
    can be walked, the error of [ReadDir] for its path comes back through
    every directory around it to the caller of [filepath.WalkDir], and the
    modules collected are those met up to it: nothing that comes after it
    is visited, in its directory or in the directories around it. *)
Theorem walk_unreadable (root : string) (t : FsTree) (p : string)
    (t' : FsTree) (acc : list string) :
  stops_at root t p t' ->
  walkDir find_module root t acc
  = (acc ++ map filepath.Dir (gomod_paths root t'),
     WalkErr (ReadDir_error p))
  /\ WalkDir find_module root (Some t) acc
     = (acc ++ map filepath.Dir (gomod_paths root t'),
        Some (ReadDir_error p)).
Proof.
  intros Hs. pose proof (walkDir_stops _ _ _ _ Hs acc) as E.
  split; [exact E|]. unfold WalkDir. by rewrite E.
Qed.

End WalkEdges.

Lemma walk_unreadable_witness :
  WalkDir find_module "." (Some Sample.tree_unreadable) []
  = (["a"], Some (ReadDir_error "b")).
Proof.
  assert (Hs : stops_at "." Sample.tree_unreadable "b"
                 (TDir "." (Some ([Sample.module_dir "a"] ++ [TDir "b" None])))).
  { apply (stops_below "." "." [Sample.module_dir "a"] (TDir "b" None)
             [Sample.module_dir "c"] "b" (TDir "b" None));
      [discriminate|reflexivity|].
    apply (stops_here "b" "b"). discriminate. }
  exact (proj2 (walk_unreadable "." _ "b" _ [] Hs)).
Defined.

Section QuietEnds.
Context `{Runtime} `{!Toolchain}.

(** X6. [Generate] drops the error of the walk. When the root cannot be
    examined, is named [internal], or is a directory that cannot be read
    and is not named [go.mod], no module is found and [Generate] returns
    nil after its log line, without loading anything and without running
    [goimports]. A root named [go.mod] that cannot be read is different:
    the function of the walk is called on it before [ReadDir] fails, so
    its directory is collected, and [Generate] goes on with it as its only
    module. *)
Theorem Generate_no_modules (F : FileTree) (rootDir outDir : string)
    (m : gmap string string) (w : World) :
  let root := if String.eqb rootDir "" then "." else rootDir in
  let out :=
    if String.eqb outDir "" then "internal/generated/snippets" else outDir in
  ((@os_tree F w root = None \/
    (exists t, @os_tree F w root = Some t /\ entry_name t = "internal") \/
    (exists n, @os_tree F w root = Some (TDir n None) /\ n <> "go.mod")) ->
   @Generate _ _ _ F rootDir outDir m w
   = (fst (log_Printf (LogProcessing 0 []) w), Returns (Ok tt)))
  /\ (@os_tree F w root = Some (TDir "go.mod" None) ->
      @Generate _ _ _ F rootDir outDir m w
      = generate_modules [filepath.Dir root] out m w).
Proof.
  intros root out. split.
  - intros Hroot.
    assert (Hnone : @find_modules F root w = []).
    { unfold find_modules, WalkDir.
      destruct Hroot as [->|[(t & -> & Ht)|(n & -> & Hn)]].
      - reflexivity.
      - by rewrite walkDir_internal.
      - cbn [walkDir]. rewrite find_module_visit.
        unfold entry_name. cbn [entry_of DirEntry.Name].
        apply String.eqb_neq in Hn as ->.
        by destruct (String.eqb n "internal"). }
    unfold Generate. fold root. rewrite Hnone. reflexivity.
  - intros E. unfold Generate, find_modules. fold root out. by rewrite E.
Qed.

End QuietEnds.

Lemma Generate_no_modules_witness :
  @Generate Sample.ast Sample.runtime Sample.toolchain
     (Sample.file_tree (TDir "internal" (Some [Sample.module_dir "a"])))
     "internal" "" Sample.apiShortnames Sample.w0
  = (mkWorld ∅ ∅ [LogProcessing 0 []] 0, Returns (Ok tt))
  /\ @Generate Sample.ast Sample.runtime Sample.toolchain
       (Sample.file_tree (TDir "go.mod" None))
       "c/go.mod" "" Sample.apiShortnames Sample.w0
     = @generate_modules Sample.ast Sample.runtime Sample.toolchain
         ["c"] "internal/generated/snippets" Sample.apiShortnames Sample.w0.
Proof.
  split.
  - apply (proj1 (@Generate_no_modules Sample.ast Sample.runtime
                    Sample.toolchain
                    (Sample.file_tree
                       (TDir "internal" (Some [Sample.module_dir "a"])))
                    "internal" "" Sample.apiShortnames Sample.w0)).
    right. left. eexists. split; reflexivity.
  - exact (proj2 (@Generate_no_modules Sample.ast Sample.runtime
                    Sample.toolchain
                    (Sample.file_tree (TDir "go.mod" None))
                    "c/go.mod" "" Sample.apiShortnames Sample.w0) eq_refl).
Defined.

(* ===================================================================== *)
(** * How [Generate] ends *)
(* ===================================================================== *)

Section EndingsOfLoop.
Context `{Runtime} `{!Toolchain}.
Variables (trim out : string) (m : gmap string string).

(** However the loop over the modules ends, it has loaded and processed
    the modules up to the one that did not load, or all of them. *)
Lemma process_dirs_inv dirs errs w w' r :
  process_dirs dirs trim out m errs w = (w', r) ->
  (exists pkgss,
      loads_from trim out m dirs w pkgss /\
      w' = fst (run_all trim out m (concat pkgss) w) /\
      r = Ok (errs ++ snd (run_all trim out m (concat pkgss) w)))
  \/ (exists dirs1 dir dirs2 pkgss err,
         dirs = dirs1 ++ dir :: dirs2 /\
         loads_from trim out m dirs1 w pkgss /\
         pkgload_Load "./..." dir
           (fst (run_all trim out m (concat pkgss) w)) = Fail err /\
         w' = fst (run_all trim out m (concat pkgss) w) /\
         r = Fail (Errorf "failed to load packages: " (Error err))).
Proof.
  revert errs w. induction dirs as [|dir dirs IH]; intros errs w.
  - intros [= <- <-]. left. exists []. split; [constructor|].
    cbn [concat run_all fst snd]. by rewrite app_nil_r.
  - cbn [process_dirs].
    destruct (pkgload_Load "./..." dir w) as [pis|err] eqn:Hload.
    + rewrite process_packages_run_all.
      destruct (run_all trim out m pis w) as [w1 errs1] eqn:E1.
      intros Hrest. apply IH in Hrest.
      assert (Ew1 : w1 = fst (run_all trim out m pis w)) by (by rewrite E1).
      destruct Hrest as [(pkgss & Hl & -> & ->)
                        |(dirs1 & d & dirs2 & pkgss & e & -> & Hl & He
                          & -> & ->)].
      * left. exists (pis :: pkgss). split.
        { constructor; [assumption|]. by rewrite <- Ew1. }
        cbn [concat]. rewrite run_all_app, E1.
        destruct (run_all trim out m (concat pkgss) w1) as [w2 errs2].
        cbn [fst snd]. by rewrite app_assoc.
      * right. exists (dir :: dirs1), d, dirs2, (pis :: pkgss), e.
        split; [reflexivity|]. split.
        { constructor; [assumption|]. by rewrite <- Ew1. }
        cbn [concat]. rewrite run_all_app, E1.
        destruct (run_all trim out m (concat pkgss) w1) as [w2 errs2].
        cbn [fst snd] in *. done.
    + intros [= <- <-]. right. exists [], dir, dirs, [], err.
      split; [reflexivity|]. split; [constructor|].
      cbn [concat run_all fst]. done.
Qed.

End EndingsOfLoop.

Section Endings.
Context `{Runtime} `{!Toolchain}.

(** X7. The ways [Generate] ends, read back from its result. If it ends
    the process, the status is 1, every module was loaded and every
    package processed, at least one of them with an error, and the last
    thing logged is the list of exactly the errors that occurred. If it
    returns nil, every module was loaded, no package gave an error, and
    [goimports] ran without error when there was a module. If it returns
    an error, either a module did not load (after the modules before it
    were processed; the error is that of the load) or every package was
    processed without error and [goimports] failed. And when every module
    loads, [Generate] ends the process if and only if a package gave an
    error: such an error is never returned and never ignored. *)
Theorem Generate_endings (F : FileTree) (rootDir outDir : string)
    (m : gmap string string) (w w' : World) (o : outcome) :
  @Generate _ _ _ F rootDir outDir m w = (w', o) ->
  let root := if String.eqb rootDir "" then "." else rootDir in
  let out :=
    if String.eqb outDir "" then "internal/generated/snippets" else outDir in
  let trim := "cloud.google.com/go" in
  let dirs := @find_modules F root w in
  let w1 := fst (log_Printf (LogProcessing (length dirs) dirs) w) in
  let all pkgss := run_all trim out m (concat pkgss) w1 in
  match o with
  | Exits status =>
      status = 1 /\
      exists pkgss,
        loads_from trim out m dirs w1 pkgss /\
        snd (all pkgss) <> [] /\
        w' = fst (log_Printf (LogFatal (snd (all pkgss))) (fst (all pkgss)))
  | Returns (Ok _) =>
      exists pkgss,
        loads_from trim out m dirs w1 pkgss /\
        snd (all pkgss) = [] /\
        if (0 <? length dirs)%nat
        then goimports_Run out (fst (all pkgss)) = (w', Ok tt)
        else w' = fst (all pkgss)
  | Returns (Fail e) =>
      (exists dirs1 dir dirs2 pkgss err,
          dirs = dirs1 ++ dir :: dirs2 /\
          loads_from trim out m dirs1 w1 pkgss /\
          pkgload_Load "./..." dir (fst (all pkgss)) = Fail err /\
          e = Errorf "failed to load packages: " (Error err) /\
          w' = fst (all pkgss))
      \/ (exists pkgss err,
             loads_from trim out m dirs w1 pkgss /\
             snd (all pkgss) = [] /\ dirs <> [] /\
             goimports_Run out (fst (all pkgss)) = (w', Fail err) /\
             e = Errorf "failed to run goimports: " (Error err))
  end
  /\ (forall pkgss,
        loads_from trim out m dirs w1 pkgss ->
        (o = Exits 1 <-> snd (all pkgss) <> [])).
Proof.
  intros Hrun root out trim dirs w1 all.
  unfold Generate, generate_modules in Hrun. fold root out dirs trim in Hrun.
  unfold log_Printf in w1, Hrun. cbn [fst] in w1. cbv beta iota in Hrun.
  fold w1 in Hrun. split.
  - destruct (process_dirs dirs trim out m [] w1) as [w2 [errs|e]] eqn:E;
      apply process_dirs_inv in E
        as [(pkgss & Hl & Ew & Er)
           |(dirs1 & d & dirs2 & pkgss & err & Ed & Hl & He & Ew & Er)];
      try discriminate.
    + injection Er as ->. cbn [app] in Hrun. fold (all pkgss) in Hrun, Ew.
      destruct (snd (all pkgss)) as [|e0 errs] eqn:Eerrs.
      * change (0 <? length (@nil error))%nat with false in Hrun.
        cbv iota in Hrun.
        destruct (0 <? length dirs)%nat eqn:Hd.
        -- destruct (goimports_Run out w2) as [w3 [[]|err]] eqn:G;
             injection Hrun as <- <-.
           ++ exists pkgss. split; [assumption|]. split; [assumption|].
              rewrite <- Ew. exact G.
           ++ right. exists pkgss, err. rewrite <- Ew.
              repeat split; try assumption.
              intros Hnil. by rewrite Hnil in Hd.
        -- injection Hrun as <- <-. exists pkgss.
           split; [assumption|]. split; [assumption|]. exact Ew.
      * change (0 <? length (e0 :: errs))%nat with true in Hrun.
        cbv iota in Hrun. injection Hrun as <- <-.
        split; [reflexivity|]. exists pkgss.
        split; [assumption|]. rewrite Eerrs. split; [discriminate|].
        by rewrite Ew.
    + injection Er as ->. injection Hrun as <- <-. left.
      exists dirs1, d, dirs2, pkgss, err. by repeat split.
  - intros pkgss Hl.
    rewrite (process_dirs_run_all _ _ _ _ _ [] _ Hl) in Hrun.
    fold (all pkgss) in Hrun. destruct (all pkgss) as [w2 errs].
    cbn [app snd] in *. destruct errs as [|e0 errs].
    + change (0 <? length (@nil error))%nat with false in Hrun.
      cbv iota in Hrun. split; [|done]. intros ->.
      destruct (0 <? length dirs)%nat; [|discriminate].
      by destruct (goimports_Run out w2) as [w3 [[]|err]].
    + change (0 <? length (e0 :: errs))%nat with true in Hrun.
      cbv iota in Hrun. injection Hrun as <- <-. done.
Qed.

End Endings.

Lemma Generate_endings_witness :
  exists pkgss,
    @loads_from Sample.ast Sample.runtime Sample.toolchain
      "cloud.google.com/go" "internal/generated/snippets"
      Sample.apiShortnames ["a"; "c"]
      (mkWorld ∅ ∅ [LogProcessing 2 ["a"; "c"]] 0) pkgss
    /\ snd (@run_all Sample.ast Sample.runtime "cloud.google.com/go"
              "internal/generated/snippets" Sample.apiShortnames
              (concat pkgss) (mkWorld ∅ ∅ [LogProcessing 2 ["a"; "c"]] 0))
       <> [].
Proof.
  pose (r := @Generate Sample.ast Sample.runtime Sample.toolchain
               (Sample.file_tree Sample.tree_ac) "" "" Sample.apiShortnames
               Sample.w0).
  assert (Hrun : r = (fst r, Exits 1)) by (vm_compute; reflexivity).
  destruct (@Generate_endings Sample.ast Sample.runtime Sample.toolchain
              (Sample.file_tree Sample.tree_ac) "" "" Sample.apiShortnames
              Sample.w0 (fst r) (Exits 1) Hrun)
    as [(_ & pkgss & Hl & Hne & _) _].
  exists pkgss. split; [exact Hl|exact Hne].
Defined.

(* ===================================================================== *)
(** * The layout of the files of a package *)
(* ===================================================================== *)

Section Layout.
Import strings filepath.

Lemma path_elements_show r out :
  normal r out -> path_elements (show_path r out) = (r, out).
Proof.
  intros Hn. destruct (show_path_parse r out Hn) as (Hne & Hr & Hfold).
  unfold path_elements. apply String.eqb_neq in Hne as ->.
  by rewrite Hr, Hfold.
Qed.

Lemma Clean_show_path r out :
  normal r out -> Clean (show_path r out) = show_path r out.
Proof.
  intros Hn. destruct (show_path_parse r out Hn) as (_ & Hr & Hfold).
  by rewrite Clean_show, Hr, Hfold.
Qed.

Lemma Join_elements d c :
  c = "" \/ is_name c = true -> d <> "" \/ c <> "" ->
  filepath.Join [d; c] = under d (element_of c).
Proof.
  intros Hc Hdc. unfold under, path_elements.
  destruct (String.eqb_spec d "") as [->|Hne]; cbn [fst snd app].
  - destruct Hc as [->|Hc]; [by destruct Hdc|].
    pose proof Hc as (Hsne & _ & _ & Hslash)%is_name_spec.
    cbn [filepath.Join String.eqb].
    rewrite (proj2 (String.eqb_neq c "") Hsne).
    change (strings.Join [c] "/") with c. rewrite Clean_show.
    replace (HasPrefix c "/") with false.
    2:{ symmetry. rewrite <- (append_nil_r c).
        by apply not_rooted_no_slash. }
    rewrite Split_without_sep by assumption. cbn [fold_left].
    rewrite clean_step_name by assumption. unfold element_of.
    by rewrite (proj2 (String.eqb_neq c "") Hsne).
  - cbn [filepath.Join]. apply String.eqb_neq in Hne as Hb. rewrite Hb.
    change (strings.Join [d; c] "/") with (d +:+ "/" +:+ c).
    by apply Clean_app_element.
Qed.

Lemma under_normal d names :
  Forall (fun c => is_name c = true) names ->
  normal (fst (path_elements d)) (snd (path_elements d) ++ names).
Proof.
  intros F. pose proof (path_elements_normal d) as Hn.
  induction names as [|c names IH] using rev_ind.
  - by rewrite app_nil_r.
  - apply Forall_app in F as [F1 F2]. inversion F2; subst.
    rewrite app_assoc. apply normal_snoc; [by apply IH|assumption].
Qed.

Lemma element_of_names c :
  c = "" \/ is_name c = true -> Forall (fun c => is_name c = true) (element_of c).
Proof.
  unfold element_of. intros [->|Hc]; [constructor|].
  destruct (String.eqb c ""); by repeat constructor.
Qed.

Lemma under_Join d c names :
  c = "" \/ is_name c = true ->
  under (filepath.Join [d; c]) names = under d (element_of c ++ names).
Proof.
  intros Hc. destruct (String.eqb_spec d "") as [->|Hd].
  - destruct Hc as [->|Hc]; [reflexivity|].
    rewrite Join_elements by (try (by right); right;
                              by apply is_name_spec in Hc as (? & _)).
    unfold under. rewrite path_elements_show.
    + cbn [fst snd]. by rewrite app_assoc.
    + apply under_normal, element_of_names. by right.
  - rewrite Join_elements by (try assumption; by left).
    unfold under. rewrite path_elements_show.
    + cbn [fst snd]. by rewrite app_assoc.
    + by apply under_normal, element_of_names.
Qed.


Context `{Runtime}.

Lemma placed_weaken d lo hi lo' hi' j :
  lo' <= lo -> hi <= hi' -> placed d lo hi j -> placed d lo' hi' j.
Proof.
  intros Hlo Hhi (names & E & F & L). exists names. repeat split; try done; lia.
Qed.

Lemma placed_Join d c lo hi j :
  is_name c = true ->
  placed (filepath.Join [d; c]) lo hi j -> placed d (S lo) (S hi) j.
Proof.
  intros Hc (names & E & F & L). exists (c :: names).
  rewrite E, under_Join by (by right). unfold element_of.
  pose proof Hc as (Hne & _)%is_name_spec.
  rewrite (proj2 (String.eqb_neq c "") Hne).
  split; [reflexivity|]. split; [by constructor|]. cbn [length]. lia.
Qed.

Lemma suffix_ok_spec (ex : Example.t) :
  suffix_ok ex = true ->
  Example.Suffix ex = "" \/ is_name (Example.Suffix ex) = true.
Proof.
  unfold suffix_ok. intros [E|E]%orb_true_iff; [left|by right].
  by apply String.eqb_eq.
Qed.

Lemma example_jobs_placed d exs j :
  forallb suffix_ok exs = true -> In j (example_jobs d exs) -> placed d 0 1 j.
Proof.
  intros Hs (ex & <- & Hex)%in_map_iff.
  rewrite forallb_forall in Hs. apply Hs, suffix_ok_spec in Hex.
  unfold placed, job_file, example_file, example_dir.
  destruct (1 <? length exs)%nat.
  - exists (element_of (Example.Suffix ex)).
    rewrite Join_elements by (by right). change (element_of "main.go") with ["main.go"].
    rewrite under_Join by assumption.
    split; [reflexivity|]. split; [by apply element_of_names|].
    unfold element_of. destruct (String.eqb _ ""); cbn [length]; lia.
  - exists []. rewrite Join_elements by (by right).
    split; [reflexivity|]. split; [constructor|]. cbn [length]. lia.
Qed.

Lemma func_jobs_placed d fs j :
  forallb func_named fs = true -> In j (flat_map (func_jobs d) fs) ->
  placed d 1 2 j.
Proof.
  intros Hs (f & Hf & Hj)%in_flat_map.
  rewrite forallb_forall in Hs. apply Hs in Hf.
  apply andb_true_iff in Hf as [Hn Hex].
  apply placed_Join with (c := Func.Name f); [assumption|].
  by apply example_jobs_placed with (exs := Func.Examples f).
Qed.

Lemma package_jobs_placed d pkg j :
  well_named pkg = true -> In j (package_jobs d pkg) -> placed d 1 3 j.
Proof.
  intros [Hf Ht]%andb_true_iff [Hj|Hj]%in_app_iff.
  - apply placed_weaken with (lo := 1) (hi := 2); [lia..|].
    by apply func_jobs_placed with (fs := Package.Funcs pkg).
  - apply in_flat_map in Hj as (t & Hin & Hj).
    rewrite forallb_forall in Ht. apply Ht in Hin.
    apply andb_true_iff in Hin as [Hin Hm].
    apply andb_true_iff in Hin as [Hin Hc].
    apply andb_true_iff in Hin as [Hn Hex].
    unfold type_jobs in Hj. apply in_app_iff in Hj as [Hj|Hj].
    { apply placed_weaken with (lo := 1) (hi := 2); [lia..|].
      apply placed_Join with (c := Type_.Name t); [assumption|].
      by apply example_jobs_placed with (exs := Type_.Examples t). }
    apply placed_weaken with (lo := 2) (hi := 3); [lia..|].
    apply placed_Join with (c := Type_.Name t); [assumption|].
    apply in_app_iff in Hj as [Hj|Hj].
    + by apply func_jobs_placed with (fs := Type_.Funcs t).
    + by apply func_jobs_placed with (fs := Type_.Methods t).
Qed.

Lemma processExamples_changed pkg fset trimPrefix outDir m w w' r p :
  processExamples pkg fset trimPrefix outDir m w = (w', r) ->
  files w' !! p <> files w !! p ->
  exists j,
    In j (package_jobs
            (filepath.Join [outDir;
               strings.TrimPrefix (Package.ImportPath pkg) trimPrefix]) pkg)
    /\ p = job_file j.
Proof.
  intros Hrun Hp. unfold processExamples in Hrun.
  destruct (index_bool skip _).
  { injection Hrun as <- _. by destruct Hp. }
  unfold bind in Hrun.
  destruct (find_shortname _ m w) as [w1 [sn|e]] eqn:Efind;
    destruct (find_shortname_files _ _ _ _ _ Efind) as (Hf & _).
  - rewrite write_package_jobs in Hrun.
    apply (forM_keeps _ job_file) in Hrun; [|apply run_job_keeps].
    destruct Hrun as (_ & F & _).
    set (jobs := package_jobs _ pkg) in *.
    destruct (writer_or_none jobs p) as [(j & Hin & E)|Hno].
    + by exists j.
    + destruct Hp. rewrite <- Hf. apply F.
      intros (j & E & Hin)%in_map_iff. by apply (Hno j Hin).
  - injection Hrun as <- _. destruct Hp. by rewrite Hf.
Qed.

(** X8. A package as [go/doc] makes it (its symbols are named by names,
    the suffixes of its examples are names or empty): however
    [processExamples] ends, a file that it has made or changed is a file
    [main.go] reached by a clean path, in a directory that lies one to
    three names below the directory of the package in [outDir] (the
    symbol, then possibly the constructor or method, then possibly the
    suffix). Nothing is written anywhere else. *)
Theorem processExamples_layout (pkg : Package.t) (fset : token_FileSet)
    (trimPrefix outDir : string) (m : gmap string string)
    (w w' : World) (r : result unit) (p : string) :
  well_named pkg = true ->
  processExamples pkg fset trimPrefix outDir m w = (w', r) ->
  files w' !! p <> files w !! p ->
  let dir :=
    filepath.Join [outDir;
                   strings.TrimPrefix (Package.ImportPath pkg) trimPrefix] in
  filepath.Clean p = p /\
  exists names,
    p = under dir (names ++ ["main.go"]) /\
    Forall (fun c => is_name c = true) names /\
    1 <= length names <= 3.
Proof.
  intros Hn Hrun Hp dir.
  destruct (processExamples_changed _ _ _ _ _ _ _ _ _ Hrun Hp)
    as (j & Hin & ->).
  destruct (package_jobs_placed _ _ _ Hn Hin) as (names & E & F & L).
  split; [|exists names; split; [exact E|split; [exact F|exact L]]].
  rewrite E. apply Clean_show_path, under_normal.
  apply Forall_app. split; [assumption|]. by repeat constructor.
Qed.

End Layout.

Lemma processExamples_layout_witness :
  let p := "out/monitoring/apiv3/v2/GroupClient/UpdateGroup/main.go" in
  filepath.Clean p = p /\
  exists names,
    p = under "out/monitoring/apiv3/v2" (names ++ ["main.go"]) /\
    Forall (fun c => is_name c = true) names /\
    1 <= length names <= 3.
Proof.
  intros p.
  pose (r := @processExamples Sample.ast Sample.runtime Sample.pkg_monitoring
               tt "cloud.google.com/go" "out" Sample.apiShortnames Sample.w0).
  assert (Hn : @well_named Sample.ast Sample.pkg_monitoring = true)
    by (vm_compute; reflexivity).
  assert (Hrun : r = (fst r, snd r)) by apply surjective_pairing.
  assert (Hp : files (fst r) !! p <> files Sample.w0 !! p)
    by (vm_compute; discriminate).
  assert (Ed : filepath.Join
                 ["out";
                  strings.TrimPrefix
                    (Package.ImportPath Sample.pkg_monitoring)
                    "cloud.google.com/go"]
               = "out/monitoring/apiv3/v2") by (vm_compute; reflexivity).
  destruct (@processExamples_layout Sample.ast Sample.runtime
              Sample.pkg_monitoring tt "cloud.google.com/go" "out"
              Sample.apiShortnames Sample.w0 (fst r) (snd r) p Hn Hrun Hp)
    as (HC & names & E & F & L).
  split; [exact HC|]. exists names. rewrite Ed in E.
  split; [exact E|split; [exact F|exact L]].
Defined.
